(** * PhoneBookClass: schema records and record collections

    A shallow embedding of [BaseClasses.py] (classes [EntryBase] and
    [BookBase]) and of the record shapes of [MainClasses.py], with the
    properties of the attribute schema, of record construction, of the
    attribute lock, and of the collection operations add / find / copy /
    index.

    Modelling conventions.
    - Python values are the first-order values the phone book stores:
      [None], booleans, integers, strings, tuples and lists.  Floats,
      functions and user objects as attribute values are outside the model.
    - A class body of a record shape declares at most the class attribute
      [attributes] (a tuple of names); hierarchies are single-inheritance
      chains below [EntryBase], as all shapes of [MainClasses.py] are.  A
      class with several bases, whose method resolution order is no chain,
      is outside the model.
    - An instance is its class together with its [__dict__].  The two
      bookkeeping entries that [EntryBase.__new__] stores, [attributes] and
      [_can_set_any_attr], live in that same dictionary, as in the source.
    - Names of the form [__x__] belong to the interpreter: [__class__],
      [__dict__] and [__weakref__] are read and written on the type, not in
      [__dict__]; an entry [__getattribute__] replaces the lookup that
      [__getitem__] calls; [copy.deepcopy] looks for its hooks under such
      names.  Attribute access is modelled for the other names: the
      properties that say what a lookup, an assignment, a display or a
      copy yields assume that the names involved are not of that form
      ([special_name], [ordinary_names], [plain_store]).
    - A keyword argument that names the first parameter of the method it
      is passed to ([cls] for [__new__], [self] for [__init__] and [find])
      makes the interpreter raise before the body runs ([MultipleValues]).
    - A raised exception is an [Err] result; the state a method leaves
      behind when it raises is the state it was given.
    - Records and collections are values where identity plays no part
      (construction, lookup, assignment, add, find, indexing).  For
      [create_copy], whose contract is about identity, the objects live in
      a store of locations and [copy.deepcopy] is modelled on that store. *)

From stdpp Require Import gmap strings list fin_maps.

Set Warnings "-register-all,-clear-no-such-hyp".
Open Scope Z_scope.

(** ** Results and exceptions *)

(** The exceptions of the program.  The first five are the [TypeError]s of
    [EntryBase.__init__] (told apart by their message), the next two the
    [AttributeError]s of [__setattr__] and [__getitem__]; [NoSuchAttribute]
    is the interpreter's own [AttributeError] of a failed attribute read,
    [NotIterable] its [TypeError] for [in] / [len] on a value that has
    neither, and [IndexOutOfRange] the [IndexError] of list indexing.
    [MultipleValues] is the interpreter's [TypeError] for a call whose
    keywords name a parameter that is already bound: the first parameter
    of the method. *)
Inductive pyerror :=
  | TooManyArguments
  | DuplicateArgument (names : gset string)
  | MissingAttributes (names : gset string)
  | UnexpectedAttributes (names : gset string)
  | UnexpectedError
  | ForbiddenAttributeSet (name : string)
  | UnknownAttribute (name : string)
  | NoSuchAttribute (name : string)
  | NotIterable
  | IndexOutOfRange
  | MultipleValues.

Inductive result (A : Type) :=
  | Ok (a : A)
  | Err (e : pyerror).
Arguments Ok {A} a.
Arguments Err {A} e.

Definition rbind {A B} (r : result A) (k : A → result B) : result B :=
  match r with
  | Ok a => k a
  | Err e => Err e
  end.

Notation "x ←r r ; k" := (rbind r (λ x, k))
  (at level 20, r at level 100, k at level 200, only parsing).

(** ** Python values *)

Inductive pyval :=
  | VNone
  | VBool (b : bool)
  | VInt (z : Z)
  | VStr (s : string)
  | VTuple (items : list pyval)
  | VList (items : list pyval).

(** [a == b].  Booleans compare as the integers 0 and 1; sequences compare
    element by element and only against their own kind. *)
Fixpoint py_eq (a b : pyval) : bool :=
  let fix seq_eq (xs ys : list pyval) : bool :=
    match xs, ys with
    | [], [] => true
    | x :: xs', y :: ys' => py_eq x y && seq_eq xs' ys'
    | _, _ => false
    end in
  match a, b with
  | VNone, VNone => true
  | VBool x, VBool y => Z.eqb (Z.b2z x) (Z.b2z y)
  | VBool x, VInt y => Z.eqb (Z.b2z x) y
  | VInt x, VBool y => Z.eqb x (Z.b2z y)
  | VInt x, VInt y => Z.eqb x y
  | VStr x, VStr y => String.eqb x y
  | VTuple xs, VTuple ys => seq_eq xs ys
  | VList xs, VList ys => seq_eq xs ys
  | _, _ => false
  end.

(** Truth value of a value, as [if v:] takes it. *)
Definition py_truthy (v : pyval) : bool :=
  match v with
  | VNone => false
  | VBool b => b
  | VInt z => negb (Z.eqb z 0)
  | VStr s => negb (String.eqb s "")
  | VTuple items | VList items => negb (Nat.eqb (length items) 0)
  end.

(** Substring test, for [x in s] on strings. *)
Definition is_substring (x s : string) : bool :=
  match String.index 0 x s with
  | Some _ => true
  | None => false
  end.

(** [key in container]; non-containers raise [TypeError]. *)
Definition py_in (key container : pyval) : result bool :=
  match container with
  | VTuple items | VList items => Ok (existsb (py_eq key) items)
  | VStr s =>
      match key with
      | VStr x => Ok (is_substring x s)
      | _ => Err NotIterable
      end
  | _ => Err NotIterable
  end.

(** [dict(pairs)]: pairs are inserted from left to right, a later pair
    overwrites an earlier one with the same key. *)
Definition py_dict (pairs : list (string * pyval)) : gmap string pyval :=
  foldl (λ d kv, <[kv.1 := kv.2]> d) ∅ pairs.

(** The names that iterating over a value gives: the items of a tuple or
    a list of strings, the characters of a string.  (A sequence with an
    item that is no string has no names: the dictionaries of the model are
    keyed by strings.) *)
Definition names_of (v : pyval) : option (list string) :=
  match v with
  | VTuple items | VList items =>
      mapM (λ x, match x with VStr s => Some s | _ => None end) items
  | VStr s => Some ((λ c, String c "") <$> String.list_ascii_of_string s)
  | _ => None
  end.

Definition tuple_of_names (names : list string) : pyval :=
  VTuple (VStr <$> names).

(** ** Record shapes *)

(** A record shape: [EntryBase] itself, or a class with a name, an optional
    class attribute [attributes] and a parent shape. *)
Inductive pyclass :=
  | EntryBase
  | Subclass (name : string) (attributes : option (list string))
             (parent : pyclass).

(** The members of a method resolution order: [object] ends every one and
    is no record shape. *)
Inductive pytype :=
  | TObject
  | TClass (c : pyclass).

Fixpoint getmro (cls : pyclass) : list pytype :=
  match cls with
  | EntryBase => [TClass EntryBase; TObject]
  | Subclass _ _ parent => TClass cls :: getmro parent
  end.

(** [cls.attributes]: the class's own declaration, else the one it
    inherits; [EntryBase] declares the empty tuple. *)
Fixpoint class_attributes (cls : pyclass) : list string :=
  match cls with
  | EntryBase => []
  | Subclass _ (Some attrs) _ => attrs
  | Subclass _ None parent => class_attributes parent
  end.

Definition type_attributes (t : pytype) : option (list string) :=
  match t with
  | TObject => None
  | TClass c => Some (class_attributes c)
  end.

(** [hasattr(base, 'attributes')] *)
Definition hasattr_attributes (t : pytype) : bool :=
  match type_attributes t with
  | Some _ => true
  | None => false
  end.

Definition class_name (cls : pyclass) : string :=
  match cls with
  | EntryBase => "EntryBase"
  | Subclass name _ _ => name
  end.

(** The shapes of [MainClasses.py]. *)
Definition PhoneEntry : pyclass :=
  Subclass "PhoneEntry" (Some ["name"; "phone"]) EntryBase.
Definition PhoneEntryExt : pyclass :=
  Subclass "PhoneEntryExt" (Some ["email"]) PhoneEntry.
Definition PhoneEntryExt2 : pyclass :=
  Subclass "PhoneEntryExt2" (Some ["age"]) PhoneEntryExt.

(** ** Instances *)

Record instance := Instance {
  inst_class : pyclass;
  inst_dict : gmap string pyval
}.

(** The class attributes that are values: [attributes] and the
    [_can_set_any_attr = True] of [EntryBase].  (The methods of the class
    are visible on an instance too; they are no values of the model, and
    a lookup that would find one is outside it.) *)
Definition class_getattr (cls : pyclass) (name : string) : option pyval :=
  if String.eqb name "attributes" then Some (tuple_of_names (class_attributes cls))
  else if String.eqb name "_can_set_any_attr" then Some (VBool true)
  else None.

(** [self.name], for a name that is not of the form [__x__]: the
    instance dictionary first, then the class. *)
Definition getattr (self : instance) (name : string) : result pyval :=
  match inst_dict self !! name with
  | Some v => Ok v
  | None =>
      match class_getattr (inst_class self) name with
      | Some v => Ok v
      | None => Err (NoSuchAttribute name)
      end
  end.

(** [object.__setattr__(self, name, value)], for a name that is not of
    the form [__x__]. *)
Definition object_setattr (self : instance) (name : string) (value : pyval)
  : instance :=
Instance (inst_class self) (<[name := value]> (inst_dict self)).

Module EntryBase.

Definition _get_parent_hierarchy_with_attributes (cls : pyclass)
  : list pytype :=
  let base_classes := filter (λ base, hasattr_attributes base = true) (getmro cls) in
  reverse base_classes.

(** [sum((base.attributes for base in base_classes), start=())] *)
Definition _get_all_attributes (cls : pyclass) : list string :=
  let base_classes := _get_parent_hierarchy_with_attributes cls in
  foldl (λ acc base, acc ++ default [] (type_attributes base)) [] base_classes.

Definition __setattr__ (self : instance) (name : string) (value : pyval)
  : result instance :=
  flag ←r getattr self "_can_set_any_attr";
  if py_truthy flag then Ok (object_setattr self name value)
  else
    attrs ←r getattr self "attributes";
    allowed ←r py_in (VStr name) attrs;
    if allowed : bool then Ok (object_setattr self name value)
    else Err (ForbiddenAttributeSet name).

(** [__new__]: the schema is computed from the class, at every call, and
    stored on the new instance; both assignments go through
    [__setattr__]. *)
Definition __new__ (cls : pyclass) : result instance :=
  let instance := Instance cls ∅ in
  instance ←r __setattr__ instance "attributes"
                (tuple_of_names (_get_all_attributes cls));
  instance ←r __setattr__ instance "_can_set_any_attr" (VBool false);
  Ok instance.

Definition __init__ (self : instance) (args : list pyval)
    (kwargs : gmap string pyval) : result instance :=
  attributes ←r getattr self "attributes";
  match names_of attributes with
  | None => Err NotIterable
  | Some attributes =>
      if decide (length attributes < length args)%nat then Err TooManyArguments
      else
        let dict_args := py_dict (zip attributes args) in
        let common_args : gset string := dom dict_args ∩ dom kwargs in
        if decide (common_args ≠ ∅) then Err (DuplicateArgument common_args)
        else
          let kwargs := dict_args ∪ kwargs in
          if decide (list_to_set attributes ≠ dom kwargs) then
            let missing_args : gset string := list_to_set attributes ∖ dom kwargs in
            if decide (missing_args ≠ ∅) then Err (MissingAttributes missing_args)
            else
              let unexpected_args : gset string := dom kwargs ∖ list_to_set attributes in
              if decide (unexpected_args ≠ ∅)
              then Err (UnexpectedAttributes unexpected_args)
              else Err UnexpectedError
          else
            Ok (Instance (inst_class self) (kwargs ∪ inst_dict self))
  end.

(** Calling the class: [__new__(cls, *args, **kwargs)], then
    [__init__(self, *args, **kwargs)] on its result.  Each call binds its
    first parameter positionally, so a keyword [cls] stops the first and a
    keyword [self] the second before its body runs. *)
Definition construct (cls : pyclass) (args : list pyval)
    (kwargs : gmap string pyval) : result instance :=
  match kwargs !! "cls" with
  | Some _ => Err MultipleValues
  | None =>
      self ←r __new__ cls;
      match kwargs !! "self" with
      | Some _ => Err MultipleValues
      | None => __init__ self args kwargs
      end
  end.

(** [self.__getattribute__(key)] is the plain attribute read, on an
    instance that has no entry [__getattribute__] of its own. *)
Definition __getitem__ (self : instance) (key : string) : result pyval :=
  attrs ←r getattr self "attributes";
  found ←r py_in (VStr key) attrs;
  if found : bool then getattr self key
  else Err (UnknownAttribute key).

End EntryBase.

(** ** Collections *)

(** A collection class: its name and the record shape it is bound to. *)
Record bookclass := BookClass {
  book_class_name : string;
  ENTRY_TYPE : pyclass
}.

Definition BookBase_class : bookclass := BookClass "BookBase" EntryBase.
Definition PhoneBook : bookclass := BookClass "PhoneBook" PhoneEntry.
Definition PhoneBookExt : bookclass := BookClass "PhoneBookExt" PhoneEntryExt.
Definition PhoneBookExt2 : bookclass := BookClass "PhoneBookExt2" PhoneEntryExt2.

(** A collection object: its class, the [attributes] that [__new__] stores
    on it, and its [entries]. *)
Record book := Book {
  book_class : bookclass;
  book_attributes : list string;
  entries : list instance
}.

(** [l[key]] on a Python list, for an integer key: a negative key counts
    from the end. *)
Definition list_getitem {A} (l : list A) (key : Z) : result A :=
  let n := Z.of_nat (length l) in
  let index := if decide (key < 0) then key + n else key in
  if decide (0 ≤ index < n) then
    match l !! Z.to_nat index with
    | Some x => Ok x
    | None => Err IndexOutOfRange
    end
  else Err IndexOutOfRange.

Module BookBase.

(** [cls()]: [__new__] stores the schema of the bound shape, [__init__]
    the empty entry list. *)
Definition create (cls : bookclass) : book :=
  Book cls (EntryBase._get_all_attributes (ENTRY_TYPE cls)) [].

(** [add_contact]: the final collection and what the call returned or
    raised.  The new record is constructed before [append] is called.  (A
    keyword [self] collides with the parameter of [add_contact] itself:
    the same [MultipleValues] that the constructor gives for it.) *)
Definition add_contact (self : book) (args : list pyval)
    (kwargs : gmap string pyval) : book * result unit :=
  match EntryBase.construct (ENTRY_TYPE (book_class self)) args kwargs with
  | Ok entry =>
      (Book (book_class self) (book_attributes self) (entries self ++ [entry]),
       Ok tt)
  | Err e => (self, Err e)
  end.

(** The inner loop of [find]: [found] for one entry.  The keyword
    criteria are visited in the order they were passed; the first
    mismatch stops the visit. *)
Fixpoint entry_found (entry : instance) (kwargs : list (string * pyval))
  : result bool :=
  match kwargs with
  | [] => Ok true
  | (kw, value) :: rest =>
      v ←r EntryBase.__getitem__ entry kw;
      if negb (py_eq v value) then Ok false
      else entry_found entry rest
  end.

(** The outer loop of [find], from the matches collected so far. *)
Fixpoint find_loop (matches : list instance) (rest : list instance)
    (kwargs : list (string * pyval)) : result (list instance) :=
  match rest with
  | [] => Ok matches
  | entry :: rest' =>
      found ←r entry_found entry kwargs;
      find_loop (if found : bool then matches ++ [entry] else matches)
                rest' kwargs
  end.

(** A criterion named [self] collides with the parameter of
    [find(self, **kwargs)]. *)
Definition names_self (kwargs : list (string * pyval)) : bool :=
  existsb (λ kv, String.eqb kv.1 "self") kwargs.

Definition find (self : book) (kwargs : list (string * pyval))
  : result (list instance) :=
  if names_self kwargs then Err MultipleValues
  else find_loop [] (entries self) kwargs.

Definition __getitem__ (self : book) (key : Z) : result instance :=
  list_getitem (entries self) key.

End BookBase.

(** ** Objects in the store: [create_copy]

    [create_copy] is [copy.deepcopy(self)].  What it promises is about
    object identity, so this part models the store: mutable objects (lists
    and instances) live at locations, values refer to them, and two
    references to one location are aliases.  [deepcopy] follows the
    standard library's [copy.py]: atoms are returned as they are, a tuple
    is rebuilt from the copies of its items, and a list or an instance is
    copied once, its copy being entered in the memo before its contents are
    copied; an instance is rebuilt by [cls.__new__(cls)] followed by
    [__dict__.update] with the copy of the original's [__dict__].  Before
    it copies an instance, [copy.py] looks on it for [__deepcopy__] and
    [__reduce_ex__], and the default [__reduce_ex__] for [__getstate__];
    what it finds, it calls. *)

Abbreviation loc := nat (only parsing).

(** Values as the store holds them: a mutable object is referred to. *)
Inductive hval :=
  | HNone
  | HBool (b : bool)
  | HInt (z : Z)
  | HStr (s : string)
  | HTuple (items : list hval)
  | HRef (l : loc).

(** The class of an instance in the store: a record shape or a collection
    class. *)
Inductive klass :=
  | KEntry (cls : pyclass)
  | KBook (cls : bookclass).

(** Mutable objects: a list, or an instance with its [__dict__]. *)
Inductive obj :=
  | OList (items : list hval)
  | OInst (k : klass) (d : gmap string hval).

(** The store; allocation appends, so a location is an index. *)
Abbreviation heap := (list obj) (only parsing).

(** The value of an object graph, without its identities. *)
Inductive snapshot :=
  | SNone
  | SBool (b : bool)
  | SInt (z : Z)
  | SStr (s : string)
  | STuple (items : list snapshot)
  | SList (items : list snapshot)
  | SInst (k : klass) (d : gmap string snapshot).

(** The entries of a map of options, when none is missing. *)
Definition all_some {A} (m : gmap string (option A)) : option (gmap string A) :=
  if decide (map_Forall (λ _ o, is_Some o) m) then Some (omap id m) else None.

(** The snapshot of a value, read through a view [σ] of the store; [n]
    bounds the nesting depth. *)
Fixpoint snapshot_of (n : nat) (σ : loc → option obj) (v : hval)
  : option snapshot :=
  match n with
  | O => None
  | S n =>
      match v with
      | HNone => Some SNone
      | HBool b => Some (SBool b)
      | HInt z => Some (SInt z)
      | HStr s => Some (SStr s)
      | HTuple items => STuple <$> mapM (snapshot_of n σ) items
      | HRef l =>
          match σ l with
          | None => None
          | Some (OList items) => SList <$> mapM (snapshot_of n σ) items
          | Some (OInst k d) => SInst k <$> all_some (snapshot_of n σ <$> d)
          end
      end
  end.

(** The whole store as a view, and its restriction to some locations. *)
Definition view (h : heap) : loc → option obj := λ l, h !! l.


(** The [__dict__] of a fresh [cls.__new__(cls)]: [EntryBase.__new__]
    stores the schema and the closed lock, [BookBase.__new__] the schema of
    the bound shape. *)
Definition new_object (k : klass) : gmap string hval :=
  match k with
  | KEntry cls =>
      <["_can_set_any_attr" := HBool false]>
        (<["attributes" := HTuple (HStr <$> EntryBase._get_all_attributes cls)]> ∅)
  | KBook cls =>
      <["attributes" :=
          HTuple (HStr <$> EntryBase._get_all_attributes (ENTRY_TYPE cls))]> ∅
  end.

(** An instance that binds one of the copy hooks.  No value of the model
    can be called, so the copy of such an instance raises [TypeError];
    only [__deepcopy__] bound to [None] counts as absent.  ([__reduce_ex__]
    bound to [None] sends [copy.py] to [__reduce__], a path that is not
    followed here: no copy either.) *)
Definition hooked (d : gmap string hval) : bool :=
  match d !! "__deepcopy__" with
  | Some HNone | None => false
  | Some _ => true
  end
  || bool_decide (is_Some (d !! "__reduce_ex__"))
  || bool_decide (is_Some (d !! "__getstate__")).

(** The state of a copy in progress: the store and the memo. *)
Abbreviation copy_state := (list obj * gmap nat nat)%type (only parsing).

(** Copy the items of a sequence from left to right. *)
Fixpoint copy_items (copy : hval → copy_state → option (hval * copy_state))
    (items : list hval) (st : copy_state)
  : option (list hval * copy_state) :=
  match items with
  | [] => Some ([], st)
  | x :: rest =>
      match copy x st with
      | None => None
      | Some (y, st1) =>
          match copy_items copy rest st1 with
          | None => None
          | Some (ys, st2) => Some (y :: ys, st2)
          end
      end
  end.

(** [copy.deepcopy(x, memo)]; [n] bounds the recursion depth.  [None]:
    the depth is used up, a reference dangles, or the copy raises. *)
Fixpoint deepcopy (n : nat) (x : hval) (st : copy_state)
  : option (hval * copy_state) :=
  match n with
  | O => None
  | S n =>
      match x with
      | HTuple items =>
          match copy_items (deepcopy n) items st with
          | None => None
          | Some (ys, st') => Some (HTuple ys, st')
          end
      | HRef l =>
          match st.2 !! l with
          | Some l' => Some (HRef l', st)
          | None =>
              let l' := length st.1 in
              match st.1 !! l with
              | None => None
              | Some (OList items) =>
                  let st1 := (st.1 ++ [OList []], <[l := l']> st.2) in
                  match copy_items (deepcopy n) items st1 with
                  | None => None
                  | Some (ys, st2) =>
                      Some (HRef l', (<[l' := OList ys]> st2.1, st2.2))
                  end
              | Some (OInst k d) =>
                  if hooked d then None
                  else
                    let y := new_object k in
                    let st1 := (st.1 ++ [OInst k y], <[l := l']> st.2) in
                    let kvs := map_to_list d in
                    match copy_items (deepcopy n) kvs.*2 st1 with
                    | None => None
                    | Some (ys, st2) =>
                        let state : gmap string hval :=
                          list_to_map (zip kvs.*1 ys) in
                        Some (HRef l',
                              (<[l' := OInst k (state ∪ y)]> st2.1, st2.2))
                    end
              end
          end
      | _ => Some (x, st)
      end
  end.

Module BookStore.

(** [create_copy]: [copy.deepcopy(self)] with an empty memo; the result
    is the location of the copy and the store after the call. *)
Definition create_copy (n : nat) (h : heap) (self : loc)
  : option (loc * heap) :=
  match deepcopy n (HRef self) (h, ∅) with
  | Some (HRef self', (h', _)) => Some (self', h')
  | _ => None
  end.

End BookStore.

(** ** Notions used by the properties *)

(** The record shapes of an ancestry, the shape itself first. *)
Fixpoint ancestry (cls : pyclass) : list pyclass :=
  match cls with
  | EntryBase => [EntryBase]
  | Subclass _ _ parent => cls :: ancestry parent
  end.

(** What the documentation of [EntryBase] describes: each shape lists the
    names it adds, and the schema collects the declared increments from the
    most general shape down. *)
Fixpoint declared_schema (cls : pyclass) : list string :=
  match cls with
  | EntryBase => []
  | Subclass _ (Some attrs) parent => declared_schema parent ++ attrs
  | Subclass _ None parent => declared_schema parent
  end.

(** Every shape of the ancestry declares its own [attributes]. *)
Fixpoint all_declare (cls : pyclass) : Prop :=
  match cls with
  | EntryBase => True
  | Subclass _ attrs parent => is_Some attrs ∧ all_declare parent
  end.

(** A shape that adds no names of its own and so declares nothing. *)
Definition PhoneEntryAlias : pyclass := Subclass "PhoneEntryAlias" None PhoneEntry.

(** The instance dictionary as [__new__] leaves it. *)
Definition new_dict (schema : list string) : gmap string pyval :=
  <["_can_set_any_attr" := VBool false]>
    (<["attributes" := tuple_of_names schema]> ∅).

(** The names that the positional values are bound to: the first
    [length args] names of the schema. *)
Definition positional_names (schema : list string) (args : list pyval)
  : gset string :=
  list_to_set (take (length args) schema).

(** A locked record carrying [schema]: its [attributes] entry is the
    schema, its [_can_set_any_attr] entry is false, and the names bound on
    it are the schema names and the two bookkeeping names. *)
Definition locked_record (schema : list string) (self : instance) : Prop :=
  inst_dict self !! "attributes" = Some (tuple_of_names schema)
  ∧ (∃ flag, inst_dict self !! "_can_set_any_attr" = Some flag
             ∧ py_truthy flag = false)
  ∧ dom (inst_dict self)
    = list_to_set schema ∪ {["attributes"; "_can_set_any_attr"]}.

(** The schema uses neither of the names under which the instance keeps
    its own bookkeeping. *)
Definition plain_names (schema : list string) : Prop :=
  ("attributes" ∉ schema) ∧ ("_can_set_any_attr" ∉ schema).

(** A name of the form [__x__]: one that the interpreter gives a meaning
    of its own. *)
Definition special_name (name : string) : bool :=
  String.prefix "__" name && String.prefix "__" (String.rev name).

(** None of the names is of that form. *)
Definition ordinary_names (names : list string) : Prop :=
  Forall (λ name, special_name name = false) names.

(** An attempted assignment: a refused one leaves the record as it was. *)
Definition assign (self : instance) (op : string * pyval) : instance :=
  match EntryBase.__setattr__ self op.1 op.2 with
  | Ok self' => self'
  | Err _ => self
  end.

(** The record after a sequence of attempted assignments. *)
Definition assign_all (self : instance) (ops : list (string * pyval))
  : instance :=
  foldl assign self ops.

(** [PhoneEntry('ana', 1234)] *)
Definition ana : instance :=
  Instance PhoneEntry
    (<["phone" := VInt 1234]> (<["name" := VStr "ana"]>
       (new_dict ["name"; "phone"]))).

(** [PhoneEntry('bob', 5678)] *)
Definition bob : instance :=
  Instance PhoneEntry
    (<["phone" := VInt 5678]> (<["name" := VStr "bob"]>
       (new_dict ["name"; "phone"]))).

(** Two shapes whose schema uses a bookkeeping name. *)
Definition FlagEntry : pyclass :=
  Subclass "FlagEntry" (Some ["_can_set_any_attr"]) EntryBase.
Definition SchemaEntry : pyclass :=
  Subclass "SchemaEntry" (Some ["attributes"]) EntryBase.

(** A shape whose schema uses the name of a first parameter, and one
    whose schema uses the name of a copy hook. *)
Definition SelfEntry : pyclass :=
  Subclass "SelfEntry" (Some ["self"]) EntryBase.








(** A run of [add_contact] calls; a call that raises changes nothing. *)
Definition add_all (self : book)
    (calls : list (list pyval * gmap string pyval)) : book :=
  foldl (λ b call, (BookBase.add_contact b call.1 call.2).1) self calls.

(** The records that a run of calls adds: those that construct. *)
Definition constructed (cls : pyclass)
    (calls : list (list pyval * gmap string pyval)) : list instance :=
  omap (λ call, match EntryBase.construct cls call.1 call.2 with
                | Ok entry => Some entry
                | Err _ => None
                end) calls.

(** The scenario of the specification: two entries, positions 0 and 2. *)
Definition two_entries : book :=
  add_all (BookBase.create PhoneBook)
    [([VStr "ana"; VInt 1234], ∅); ([VStr "bob"; VInt 5678], ∅)].

(** An entry matches the criteria: the value stored under each criterion
    name equals the criterion value. *)
Definition entry_matches (kwargs : list (string * pyval)) (entry : instance)
  : bool :=
  forallb (λ kv, match inst_dict entry !! kv.1 with
                 | Some v => py_eq v kv.2
                 | None => false
                 end) kwargs.

(** [SchemaEntry(())]: the value bound to the schema name [attributes]
    has replaced the schema stored on the instance. *)
Definition schema_entry_book : book :=
  add_all (BookBase.create (BookClass "SchemaBook" SchemaEntry))
    [([VTuple []], ∅)].

(** A store with the phone book of the scenario, and a tag list on
    ana's record. *)
Definition scenario_heap : heap :=
  [ OInst (KBook PhoneBook)
      (<["entries" := HRef 1%nat]> (new_object (KBook PhoneBook)));
    OList [HRef 2%nat; HRef 4%nat];
    OInst (KEntry PhoneEntry)
      (<["phone" := HRef 3%nat]> (<["name" := HStr "ana"]>
         (new_object (KEntry PhoneEntry))));
    OList [HInt 1234; HInt 99];
    OInst (KEntry PhoneEntry)
      (<["phone" := HInt 5678]> (<["name" := HStr "bob"]>
         (new_object (KEntry PhoneEntry)))) ].

(** No instance of the store binds a name of the form [__x__]. *)
Definition plain_store (h : heap) : bool :=
  forallb (λ o, match o with
                | OList _ => true
                | OInst _ d =>
                    forallb (λ name, negb (special_name name))
                            (map_to_list d).*1
                end) h.




(** Every instance of the store carries the entries that its [__new__]
    stores: it was created by calling its class. *)
Definition wf_heap (h : heap) : Prop :=
  ∀ l k d, h !! l = Some (OInst k d) → dom (new_object k) ⊆ dom d.






(** The snapshot of a pure value, record and collection: what a store
    holds when it holds that collection. *)
Fixpoint val_snapshot (v : pyval) : snapshot :=
  match v with
  | VNone => SNone
  | VBool b => SBool b
  | VInt z => SInt z
  | VStr s => SStr s
  | VTuple items => STuple (val_snapshot <$> items)
  | VList items => SList (val_snapshot <$> items)
  end.

Definition entry_snapshot (entry : instance) : snapshot :=
  SInst (KEntry (inst_class entry)) (val_snapshot <$> inst_dict entry).

Definition book_snapshot (b : book) : snapshot :=
  SInst (KBook (book_class b))
    (<["entries" := SList (entry_snapshot <$> entries b)]>
       {["attributes" := STuple (SStr <$> book_attributes b)]}).

(** The collection of the scenario, with a list as ana's phone. *)
Definition scenario_book : book :=
  Book PhoneBook ["name"; "phone"]
    [ Instance PhoneEntry
        (<["phone" := VList [VInt 1234; VInt 99]]> (<["name" := VStr "ana"]>
           (new_dict ["name"; "phone"])));
      bob ].

(** Two mutations through the store: appending to a list object, and
    [object.__setattr__] on an instance. *)
Definition store_append (h : heap) (l : loc) (v : hval) : heap :=
  match h !! l with
  | Some (OList items) => <[l := OList (items ++ [v])]> h
  | _ => h
  end.

Definition store_setattr (h : heap) (l : loc) (name : string) (v : hval)
  : heap :=
  match h !! l with
  | Some (OInst k d) => <[l := OInst k (<[name := v]> d)]> h
  | _ => h
  end.

(** The scenario book after renaming ana and appending to her list. *)
Definition scenario_book_changed : book :=
  Book PhoneBook ["name"; "phone"]
    [ Instance PhoneEntry
        (<["phone" := VList [VInt 1234; VInt 99; VInt 7]]>
           (<["name" := VStr "anna"]> (new_dict ["name"; "phone"])));
      bob ].

(** ** Notions used by the further properties *)

(** The criteria loop of [find] ended on an entry with [found] true. *)
Definition found_in (kwargs : list (string * pyval)) (entry : instance)
  : bool :=
  match BookBase.entry_found entry kwargs with
  | Ok found => found
  | Err _ => false
  end.

(** The image of a value under a memo: every reference is replaced by
    the copy that the memo records for it. *)
Fixpoint rename (memo : gmap nat nat) (v : hval) : option hval :=
  match v with
  | HTuple items => HTuple <$> mapM (rename memo) items
  | HRef l => HRef <$> memo !! l
  | _ => Some v
  end.

(** [o'] is the copy of [o] under a memo: a list of the images of the
    items; an instance of the same class whose [__dict__] holds the images
    of the original's entries, and under any other name what [__new__]
    stores. *)
Definition copy_of (memo : gmap nat nat) (o o' : obj) : Prop :=
  match o, o' with
  | OList items, OList ys => mapM (rename memo) items = Some ys
  | OInst k d, OInst k' d' =>
      k' = k
      ∧ ∀ name : string,
          match d !! name with
          | Some v => ∃ w, rename memo v = Some w ∧ d' !! name = Some w
          | None => d' !! name = new_object k !! name
          end
  | _, _ => False
  end.

(** Every reference of a value, an object, a store is to a location
    below [n]: a store is closed when no reference dangles. *)
Fixpoint refs_below (n : nat) (v : hval) : bool :=
  match v with
  | HTuple items => forallb (refs_below n) items
  | HRef l => bool_decide (l < n)%nat
  | _ => true
  end.

Definition obj_refs_below (n : nat) (o : obj) : bool :=
  match o with
  | OList items => forallb (refs_below n) items
  | OInst _ d => forallb (refs_below n) (map_to_list d).*2
  end.

Definition closed (h : heap) : bool := forallb (obj_refs_below (length h)) h.

(** A copy in progress on a closed store [h0]: the original objects are
    untouched; the memo maps original objects to new ones, one to one; and
    the copy recorded for an object either is under construction or is
    its copy under the memo. *)
Definition copy_shape (h0 : heap) (pend : gset nat) (st : copy_state) : Prop :=
  (∀ m, (m < length h0)%nat → st.1 !! m = h0 !! m)
  ∧ (length h0 ≤ length st.1)%nat
  ∧ (∀ l l', st.2 !! l = Some l' →
       (l < length h0)%nat ∧ (length h0 ≤ l')%nat ∧ (l' < length st.1)%nat)
  ∧ (∀ l1 l2 l', st.2 !! l1 = Some l' → st.2 !! l2 = Some l' → l1 = l2)
  ∧ (∀ l l', st.2 !! l = Some l' →
       l' ∈ pend
       ∨ ∃ o o', h0 !! l = Some o ∧ st.1 !! l' = Some o' ∧ copy_of st.2 o o').

(** A store with sharing and a cycle: a collection of two records that
    share one list as their [phone], the second of which refers back to
    the collection in its [name]. *)
Definition shared_heap : heap :=
  [ OInst (KBook PhoneBook)
      (<["entries" := HRef 1%nat]> (new_object (KBook PhoneBook)));
    OList [HRef 2%nat; HRef 3%nat];
    OInst (KEntry PhoneEntry)
      (<["phone" := HRef 4%nat]> (<["name" := HStr "ana"]>
         (new_object (KEntry PhoneEntry))));
    OInst (KEntry PhoneEntry)
      (<["phone" := HRef 4%nat]> (<["name" := HRef 0%nat]>
         (new_object (KEntry PhoneEntry))));
    OList [HInt 1234; HTuple [HInt 99; HRef 2%nat]] ].

(** What one step of the copy does, whatever the store: it allocates,
    leaves every existing object as it was, only adds to the memo, and
    returns the image of its argument under the memo. *)
Definition copy_step (x : hval) (st : copy_state) (y : hval)
    (st' : copy_state) : Prop :=
  (length st.1 ≤ length st'.1)%nat
  ∧ (∀ m, (m < length st.1)%nat → st'.1 !! m = st.1 !! m)
  ∧ st.2 ⊆ st'.2
  ∧ rename st'.2 x = Some y.

(** [deepcopy] with fuel [n] keeps the invariant of a copy in progress. *)
Definition shape_kept (h0 : list obj) (n : nat) : Prop :=
  ∀ x st y st' pend,
    deepcopy n x st = Some (y, st') → refs_below (length h0) x = true →
    copy_shape h0 pend st → copy_shape h0 pend st'.


(** The nesting depth of the tuples of a value, and the largest one among
    the values that the objects of a store hold. *)
Fixpoint tuple_depth (v : hval) : nat :=
  match v with
  | HTuple items => S (max_list (tuple_depth <$> items))
  | _ => 0
  end.

Definition obj_depth (o : obj) : nat :=
  match o with
  | OList items => max_list (tuple_depth <$> items)
  | OInst _ d => max_list (tuple_depth <$> (map_to_list d).*2)
  end.

Definition heap_depth (h : heap) : nat := max_list (obj_depth <$> h).

(** The recursion depth that copying [x] can still need: the tuples of
    [x], then one object after the other of those not yet in the memo, each
    with the tuples it holds. *)
Definition copy_depth (h0 : heap) (x : hval) (st : copy_state) : nat :=
  tuple_depth x + (length h0 - size st.2) * S (heap_depth h0).

(** [deepcopy] with fuel [n] returns on every value whose copy needs
    less depth than [n]. *)
Definition returns_within (h0 : heap) (n : nat) : Prop :=
  ∀ x st pend,
    copy_shape h0 pend st → refs_below (length h0) x = true →
    (copy_depth h0 x st < n)%nat →
    ∃ y st', deepcopy n x st = Some (y, st').

(** ** Display: [__str__] and [__repr__]

    What the display methods build is text.  [repr] of a value is the
    interpreter's own and stays a parameter; [str] of a string is the
    string itself and of every other value of the model its [repr].
    Integers in the headers of [BookBase.__str__] are written in decimal. *)

Definition newline : string := String (Ascii.ascii_of_nat 10) "".

(** [str(n)] for a natural number. *)
Definition digit (d : nat) : Ascii.ascii := Ascii.ascii_of_nat (48 + d).

Fixpoint decimal_go (fuel n : nat) (acc : string) : string :=
  match fuel with
  | O => acc
  | S fuel =>
      let acc := String (digit (n `mod` 10)) acc in
      if (n `div` 10 =? 0)%nat then acc else decimal_go fuel (n `div` 10) acc
  end.

Definition decimal (n : nat) : string := decimal_go (S n) n "".

(** [c * n] for a one-character string [c]. *)
Fixpoint repeat_char (c : Ascii.ascii) (n : nat) : string :=
  match n with
  | O => ""
  | S n => String c (repeat_char c n)
  end.

(** The format [{ix:0{width}}] of a natural number: zero-filled on the
    left up to [width]. *)
Definition zero_fill (width ix : nat) : string :=
  let s := decimal ix in
  repeat_char (digit 0) (width - String.length s) +:+ s.

(** The errors of the display methods: those of the calls they make and
    the [TypeError] of reading an attribute whose name is no string. *)
Inductive shown (A : Type) :=
  | Done (a : A)
  | Raised (e : pyerror)
  | RaisedNameNotString.
Arguments Done {A} a.
Arguments Raised {A} e.
Arguments RaisedNameNotString {A}.

Definition shown_of {A} (r : result A) : shown A :=
  match r with
  | Ok a => Done a
  | Err e => Raised e
  end.

Definition sbind {A B} (r : shown A) (k : A → shown B) : shown B :=
  match r with
  | Done a => k a
  | Raised e => Raised e
  | RaisedNameNotString => RaisedNameNotString
  end.

(** [iter(v)]: the items of a tuple or a list, the characters of a
    string. *)
Definition py_iter (v : pyval) : result (list pyval) :=
  match v with
  | VTuple items | VList items => Ok items
  | VStr s => Ok ((λ c, VStr (String c "")) <$> String.list_ascii_of_string s)
  | _ => Err NotIterable
  end.

Module EntryShow.
Section with_repr.
Variable py_repr : pyval → string.

Definition py_str (v : pyval) : string :=
  match v with
  | VStr s => s
  | _ => py_repr v
  end.

(** [self[key]] for a key of any type: [EntryBase.__getitem__], whose
    [__getattribute__] refuses a name that is no string. *)
Definition getitem_value (self : instance) (key : pyval) : shown pyval :=
  match key with
  | VStr name => shown_of (EntryBase.__getitem__ self name)
  | _ =>
      sbind (shown_of (getattr self "attributes")) (λ attrs,
      sbind (shown_of (py_in key attrs)) (λ found,
        if found : bool then RaisedNameNotString
        else Raised (UnknownAttribute (py_str key))))
  end.

(** The generator of both methods: one text per attribute, the name and
    the value around [sep]. *)
Fixpoint parts_loop (self : instance) (sep : string) (attrs : list pyval)
  : shown (list string) :=
  match attrs with
  | [] => Done []
  | attr :: rest =>
      sbind (getitem_value self attr) (λ value,
      sbind (parts_loop self sep rest) (λ parts,
        Done ((py_str attr +:+ sep +:+ py_str value) :: parts)))
  end.

Definition parts (self : instance) (sep : string) : shown (list string) :=
  sbind (shown_of (getattr self "attributes")) (λ attributes,
  sbind (shown_of (py_iter attributes)) (λ attrs,
    parts_loop self sep attrs)).

Definition __str__ (self : instance) : shown string :=
  sbind (parts self ": ") (λ lines, Done (String.concat newline lines)).

Definition __repr__ (self : instance) : shown string :=
  sbind (parts self "=") (λ fields,
    Done (class_name (inst_class self) +:+ "(" +:+ String.concat ", " fields
          +:+ ")")).

End with_repr.
End EntryShow.

Module BookShow.
Section with_repr.
Variable py_repr : pyval → string.

(** The header of entry number [ix] and the closing divider, for indices
    of [ix_length] digits; character 45 is the hyphen. *)
Definition header (ix_length ix : nat) : string :=
  "--- Entry #" +:+ zero_fill ix_length ix +:+ " ---".

Definition divider (ix_length : nat) : string :=
  repeat_char (Ascii.ascii_of_nat 45) (15 + ix_length).

(** The loop of [__str__]: [ix] is the number of the next entry, [s] the
    text so far. *)
Fixpoint str_loop (ix_length ix : nat) (es : list instance) (s : string)
  : shown string :=
  match es with
  | [] => Done s
  | entry :: rest =>
      sbind (EntryShow.__str__ py_repr entry) (λ body,
        str_loop ix_length (S ix) rest
          (s +:+ header ix_length ix +:+ newline +:+ body
             +:+ newline +:+ newline))
  end.

Definition __str__ (self : book) : shown string :=
  match entries self with
  | [] => Done "Your book has no entries yet"
  | _ =>
      let ix_length := String.length (decimal (length (entries self))) in
      sbind (str_loop ix_length 1 (entries self) "") (λ s,
        Done (s +:+ divider ix_length))
  end.

End with_repr.
End BookShow.

(** The text that [BookBase.__str__] lays out for the entry texts
    [bodies], numbered from [ix]. *)
Fixpoint book_layout (ix_length ix : nat) (bodies : list string) : string :=
  match bodies with
  | [] => ""
  | body :: rest =>
      BookShow.header ix_length ix +:+ newline +:+ body +:+ newline
        +:+ newline +:+ book_layout ix_length (S ix) rest
  end.

(** The lines of a record: one per schema name, in schema order. *)
Definition entry_parts (py_repr : pyval → string) (sep : string)
    (schema : list string) (values : list pyval) : list string :=
  zip_with (λ name value, name +:+ sep +:+ EntryShow.py_str py_repr value)
           schema values.

(** * Properties *)

(** ** Generic facts about the helpers *)

Lemma rbind_Ok {A B} (r : result A) (k : A → result B) (b : B) :
  rbind r k = Ok b ↔ ∃ a, r = Ok a ∧ k a = Ok b.
Proof.
  destruct r as [a|e]; simpl; split.
  - intros H. by exists a.
  - by intros (a' & [= <-] & H).
  - done.
  - by intros (a' & ? & _).
Qed.

Lemma py_dict_snoc (pairs : list (string * pyval)) k v :
  py_dict (pairs ++ [(k, v)]) = <[k := v]> (py_dict pairs).
Proof. unfold py_dict. by rewrite foldl_app. Qed.

Lemma dom_py_dict (pairs : list (string * pyval)) :
  dom (py_dict pairs) = (list_to_set pairs.*1 : gset string).
Proof.
  induction pairs as [|[k v] pairs IH] using rev_ind.
  - unfold py_dict. simpl. set_solver.
  - rewrite py_dict_snoc, dom_insert_L, IH, fmap_app, list_to_set_app_L.
    simpl. set_solver.
Qed.

(** The value a key has in [dict(pairs)] is the one of its last pair. *)
Lemma py_dict_lookup_last (pairs : list (string * pyval)) i k v :
  pairs !! i = Some (k, v) →
  (∀ j v', (i < j)%nat → pairs !! j ≠ Some (k, v')) →
  py_dict pairs !! k = Some v.
Proof.
  revert i. induction pairs as [|[k' v'] pairs IH] using rev_ind;
    intros i Hi Hlast; [done|].
  rewrite py_dict_snoc.
  destruct (decide (i = length pairs)) as [->|Hne].
  - rewrite list_lookup_middle in Hi by done. injection Hi as -> ->.
    apply lookup_insert_eq.
  - assert (i < length pairs)%nat as Hlt.
    { apply lookup_lt_Some in Hi. rewrite length_app in Hi. simpl in Hi. lia. }
    rewrite lookup_app_l in Hi by done.
    rewrite lookup_insert_ne.
    + apply (IH i Hi). intros j w Hj Hjw.
      apply (Hlast j w Hj). rewrite lookup_app_l; [done|].
      by apply lookup_lt_Some in Hjw.
    + intros ->. apply (Hlast (length pairs) v' Hlt).
      by rewrite list_lookup_middle.
Qed.

Lemma fst_zip_take {A B} (xs : list A) (ys : list B) :
  (zip xs ys).*1 = take (length ys) xs.
Proof.
  revert ys. induction xs as [|x xs IH]; intros [|y ys]; simpl; try done.
  by rewrite IH.
Qed.

Lemma names_of_tuple_of_names (names : list string) :
  names_of (tuple_of_names names) = Some names.
Proof.
  unfold names_of, tuple_of_names. apply mapM_Some.
  induction names; simpl; constructor; auto.
Qed.

Lemma py_eq_VStr (x y : string) : py_eq (VStr x) (VStr y) = bool_decide (x = y).
Proof.
  simpl. destruct (String.eqb_spec x y).
  - by rewrite bool_decide_eq_true_2.
  - by rewrite bool_decide_eq_false_2.
Qed.

(** [name in attributes] on a tuple of names is list membership. *)
Lemma py_in_tuple_of_names (name : string) (names : list string) :
  py_in (VStr name) (tuple_of_names names) = Ok (bool_decide (name ∈ names)).
Proof.
  unfold py_in, tuple_of_names. f_equal.
  induction names as [|n names IH].
  - symmetry. apply bool_decide_eq_false_2, not_elem_of_nil.
  - rewrite fmap_cons. cbn [existsb]. rewrite IH, py_eq_VStr.
    rewrite <- bool_decide_or. apply bool_decide_ext.
    by rewrite elem_of_cons.
Qed.

(** ** Schema composition *)

Lemma hierarchy_with_attributes (cls : pyclass) :
  EntryBase._get_parent_hierarchy_with_attributes cls
  = reverse (TClass <$> ancestry cls).
Proof.
  unfold EntryBase._get_parent_hierarchy_with_attributes. f_equal.
  induction cls as [|name attrs parent IH]; [done|].
  simpl. rewrite filter_cons_True by done. by rewrite IH.
Qed.

Lemma foldl_attributes (acc : list string) (shapes : list pyclass) :
  foldl (λ acc base, acc ++ default [] (type_attributes base)) acc
        (TClass <$> shapes)
  = acc ++ concat (class_attributes <$> shapes).
Proof.
  revert acc. induction shapes as [|c shapes IH]; intros acc; simpl.
  - by rewrite app_nil_r.
  - by rewrite IH, app_assoc.
Qed.

(** The schema is the concatenation, most general shape first, of the
    [attributes] visible on each shape of the ancestry. *)
Lemma get_all_attributes_concat (cls : pyclass) :
  EntryBase._get_all_attributes cls
  = concat (class_attributes <$> reverse (ancestry cls)).
Proof.
  unfold EntryBase._get_all_attributes. rewrite hierarchy_with_attributes.
  rewrite <- fmap_reverse. apply (foldl_attributes []).
Qed.

Lemma get_all_attributes_EntryBase :
  EntryBase._get_all_attributes EntryBase = [].
Proof. reflexivity. Qed.

Lemma get_all_attributes_Subclass name attrs parent :
  EntryBase._get_all_attributes (Subclass name attrs parent)
  = EntryBase._get_all_attributes parent
    ++ class_attributes (Subclass name attrs parent).
Proof.
  rewrite !get_all_attributes_concat. cbn [ancestry].
  rewrite reverse_cons, fmap_app, concat_app. simpl.
  by rewrite app_nil_r.
Qed.

Lemma get_all_attributes_declared (cls : pyclass) :
  all_declare cls → EntryBase._get_all_attributes cls = declared_schema cls.
Proof.
  induction cls as [|name attrs parent IH]; [done|].
  intros [[a ->] Hparent]. rewrite get_all_attributes_Subclass. simpl.
  by rewrite IH.
Qed.

Lemma get_all_attributes_three_levels n1 n2 n3 (a b c d : string) :
  EntryBase._get_all_attributes
    (Subclass n3 (Some [d]) (Subclass n2 (Some [c])
       (Subclass n1 (Some [a; b]) EntryBase)))
  = [a; b; c; d].
Proof. reflexivity. Qed.

Lemma get_all_attributes_PhoneEntryExt2 :
  EntryBase._get_all_attributes PhoneEntryExt2
  = ["name"; "phone"; "email"; "age"].
Proof. reflexivity. Qed.

(** C2, evaluated on [class PhoneEntryAlias(PhoneEntry): pass]: the shape
    declares no attribute list, yet [hasattr] finds the inherited one, so
    the shape takes part in the composition and contributes the names of
    [PhoneEntry] a second time; the declared increments alone give
    (name, phone). *)
Theorem schema_of_non_declaring_shape :
  EntryBase._get_parent_hierarchy_with_attributes PhoneEntryAlias
    = [TClass EntryBase; TClass PhoneEntry; TClass PhoneEntryAlias]
  ∧ EntryBase._get_all_attributes PhoneEntryAlias
    = ["name"; "phone"; "name"; "phone"]
  ∧ declared_schema PhoneEntryAlias = ["name"; "phone"].
Proof. repeat split; reflexivity. Qed.

(** With the doubled schema, [PhoneEntryAlias] takes four positional
    values for its two names; the later ones win. *)
Example construct_alias_four_values :
  ∃ inst,
    EntryBase.construct PhoneEntryAlias
      [VStr "ana"; VInt 1; VStr "bob"; VInt 2] ∅ = Ok inst
    ∧ inst_dict inst !! "name" = Some (VStr "bob")
    ∧ inst_dict inst !! "phone" = Some (VInt 2).
Proof. eexists. split; [reflexivity|]. split; reflexivity. Qed.

(** ** Construction *)

Lemma new_eq (cls : pyclass) :
  EntryBase.__new__ cls
  = Ok (Instance cls (new_dict (EntryBase._get_all_attributes cls))).
Proof. reflexivity. Qed.

Lemma new_dict_lookup_attributes schema :
  new_dict schema !! "attributes" = Some (tuple_of_names schema).
Proof. reflexivity. Qed.

Lemma new_dict_lookup_flag schema :
  new_dict schema !! "_can_set_any_attr" = Some (VBool false).
Proof. reflexivity. Qed.

Lemma dom_new_dict schema :
  dom (new_dict schema) = ({["attributes"; "_can_set_any_attr"]} : gset string).
Proof.
  unfold new_dict. rewrite !dom_insert_L, dom_empty_L. set_solver.
Qed.

Lemma dom_dict_args schema args :
  dom (py_dict (zip schema args)) = positional_names schema args.
Proof. by rewrite dom_py_dict, fst_zip_take. Qed.

(** A keyword that names the first parameter of [__new__] or of
    [__init__] stops the call; a call that returns had none. *)
Lemma construct_keyword cls args kwargs :
  is_Some (kwargs !! "self") ∨ is_Some (kwargs !! "cls") →
  EntryBase.construct cls args kwargs = Err MultipleValues.
Proof.
  unfold EntryBase.construct. rewrite new_eq. cbn [rbind].
  intros [[v Hv]|[v Hv]]; rewrite Hv; [|done].
  by destruct (kwargs !! "cls").
Qed.

Lemma construct_Ok_keywords cls args kwargs inst :
  EntryBase.construct cls args kwargs = Ok inst →
  kwargs !! "self" = None ∧ kwargs !! "cls" = None.
Proof.
  intros Hok.
  destruct (kwargs !! "self") as [v|] eqn:Hself.
  { rewrite construct_keyword in Hok; [done|]. left. by rewrite Hself. }
  destruct (kwargs !! "cls") as [v|] eqn:Hcls; [|done].
  rewrite construct_keyword in Hok; [done|]. right. by rewrite Hcls.
Qed.

(** [construct] with the keyword checks passed, and with [__new__] and
    the reads of [self.attributes] evaluated. *)
Lemma construct_unfold cls args kwargs :
  kwargs !! "self" = None → kwargs !! "cls" = None →
  EntryBase.construct cls args kwargs =
  let schema := EntryBase._get_all_attributes cls in
  if decide (length schema < length args)%nat then Err TooManyArguments
  else
    let dict_args := py_dict (zip schema args) in
    let common_args : gset string := dom dict_args ∩ dom kwargs in
    if decide (common_args ≠ ∅) then Err (DuplicateArgument common_args)
    else
      let merged := dict_args ∪ kwargs in
      if decide (list_to_set schema ≠ dom merged) then
        let missing_args : gset string := list_to_set schema ∖ dom merged in
        if decide (missing_args ≠ ∅) then Err (MissingAttributes missing_args)
        else
          let unexpected_args : gset string := dom merged ∖ list_to_set schema in
          if decide (unexpected_args ≠ ∅)
          then Err (UnexpectedAttributes unexpected_args)
          else Err UnexpectedError
      else Ok (Instance cls (merged ∪ new_dict schema)).
Proof.
  intros Hself Hcls.
  unfold EntryBase.construct. rewrite Hcls, Hself, new_eq. cbn [rbind].
  unfold EntryBase.__init__, getattr. cbn [inst_dict inst_class].
  rewrite new_dict_lookup_attributes. cbn [rbind].
  by rewrite names_of_tuple_of_names.
Qed.

Lemma positional_names_subseteq schema args :
  positional_names schema args ⊆ list_to_set schema.
Proof.
  unfold positional_names. intros x. rewrite !elem_of_list_to_set.
  apply subseteq_take.
Qed.

Section construction.
Context (cls : pyclass) (args : list pyval) (kwargs : gmap string pyval).
Context (Hself : kwargs !! "self" = None) (Hcls : kwargs !! "cls" = None).
Let schema := EntryBase._get_all_attributes cls.
Let positional := positional_names schema args.
Let outcome := EntryBase.construct cls args kwargs.

Local Ltac construct_cases :=
  subst outcome; rewrite (construct_unfold _ _ _ Hself Hcls); fold schema;
  cbv zeta;
  rewrite dom_union_L, dom_dict_args; fold positional;
  pose proof (positional_names_subseteq schema args) as Hsub;
  fold positional in Hsub;
  repeat case_decide.

Local Ltac finish :=
  split; intros; destruct_and?; simplify_eq; try lia;
  try (repeat split; try done; try lia; set_solver).

Lemma construct_Ok_iff :
  (∃ inst, outcome = Ok inst) ↔
    (length args ≤ length schema)%nat ∧
    positional ∪ dom kwargs = list_to_set schema ∧
    positional ∩ dom kwargs = ∅.
Proof.
  construct_cases.
  all: split; [intros [inst ?] | intros (? & ? & ?)]; simplify_eq;
    try lia; try set_solver.
  repeat split; [lia | done..].
Qed.

Lemma construct_TooManyArguments_iff :
  outcome = Err TooManyArguments ↔ (length schema < length args)%nat.
Proof. construct_cases; finish. Qed.

Lemma construct_DuplicateArgument_iff names :
  outcome = Err (DuplicateArgument names) ↔
    (length args ≤ length schema)%nat ∧
    names = positional ∩ dom kwargs ∧ names ≠ ∅.
Proof. construct_cases; finish. Qed.

Lemma construct_MissingAttributes_iff names :
  outcome = Err (MissingAttributes names) ↔
    (length args ≤ length schema)%nat ∧ positional ∩ dom kwargs = ∅ ∧
    names = list_to_set schema ∖ (positional ∪ dom kwargs) ∧ names ≠ ∅.
Proof. construct_cases; finish. Qed.

Lemma construct_UnexpectedAttributes_iff names :
  outcome = Err (UnexpectedAttributes names) ↔
    (length args ≤ length schema)%nat ∧ positional ∩ dom kwargs = ∅ ∧
    list_to_set schema ⊆ positional ∪ dom kwargs ∧
    names = dom kwargs ∖ list_to_set schema ∧ names ≠ ∅.
Proof.
  construct_cases.
  - finish.
  - finish.
  - split; [done|]. intros (_ & _ & Hall & _ & _).
    apply set_choose_L in H2 as [x Hx]. set_solver.
  - assert ((positional ∪ dom kwargs) ∖ list_to_set schema
            = dom kwargs ∖ list_to_set schema) as Heq by set_solver.
    rewrite Heq in *.
    split.
    + intros [= <-]. repeat split; try done; try lia.
      intros x Hx. apply dec_stable. intros Hn. set_solver.
    + intros (_ & _ & _ & -> & _). done.
  - split; [done|]. intros (_ & _ & Hall & -> & Hne).
    apply set_choose_L in Hne as [x Hx]. set_solver.
  - split; [done|]. intros (_ & _ & Hall & -> & Hne).
    apply set_choose_L in Hne as [x Hx]. set_solver.
Qed.

Lemma construct_Err_kinds e :
  outcome = Err e →
  e = TooManyArguments ∨ (∃ names, e = DuplicateArgument names)
  ∨ (∃ names, e = MissingAttributes names)
  ∨ (∃ names, e = UnexpectedAttributes names).
Proof.
  construct_cases; intros; simplify_eq; eauto 6.
  exfalso. apply H1.
  apply set_eq. intros x. split; intros Hx.
  - apply dec_stable. intros Hn. set_solver.
  - apply dec_stable. intros Hn. set_solver.
Qed.

Lemma construct_Ok_inv_checked inst :
  outcome = Ok inst →
  let merged := py_dict (zip schema args) ∪ kwargs in
  inst = Instance cls (merged ∪ new_dict schema)
  ∧ dom merged = list_to_set schema.
Proof.
  construct_cases; intros; simplify_eq. cbv zeta.
  split; [done|]. by symmetry.
Qed.

Lemma construct_Ok_dict inst :
  outcome = Ok inst →
  inst_class inst = cls ∧
  (∀ name, name ∈ schema → is_Some (inst_dict inst !! name)) ∧
  (∀ name v, kwargs !! name = Some v → inst_dict inst !! name = Some v) ∧
  (∀ i name v, schema !! i = Some name → args !! i = Some v →
     (∀ j, (i < j < length args)%nat → schema !! j ≠ Some name) →
     inst_dict inst !! name = Some v).
Proof.
  construct_cases; intros; simplify_eq. cbn [inst_class inst_dict].
  split; [done|]. split; [|split].
  - intros name Hname. apply lookup_union_is_Some. left.
    apply elem_of_dom. rewrite dom_union_L, dom_dict_args.
    fold schema positional. rewrite <- H1. by apply elem_of_list_to_set.
  - intros name v Hkw. apply lookup_union_Some_l.
    rewrite lookup_union_r; [done|].
    apply not_elem_of_dom. rewrite dom_dict_args. fold schema positional.
    assert (name ∈ dom kwargs) by (apply elem_of_dom; eauto).
    set_solver.
  - intros i name v Hi Hv Hlast. do 2 apply lookup_union_Some_l.
    apply (py_dict_lookup_last _ i).
    + apply lookup_zip_with_Some. eauto.
    + intros j v' Hj Hjv. apply lookup_zip_with_Some in Hjv
        as (x & y & [= <- <-] & Hx & Hy).
      apply (Hlast j); [|done]. apply lookup_lt_Some in Hy. lia.
Qed.
End construction.

(** What a call that returns has built, whatever its keywords. *)
Lemma construct_Ok_inv cls args kwargs inst :
  EntryBase.construct cls args kwargs = Ok inst →
  let schema := EntryBase._get_all_attributes cls in
  let merged := py_dict (zip schema args) ∪ kwargs in
  inst = Instance cls (merged ∪ new_dict schema)
  ∧ dom merged = list_to_set schema.
Proof.
  intros Hok. destruct (construct_Ok_keywords _ _ _ _ Hok) as [Hself Hcls].
  by apply construct_Ok_inv_checked.
Qed.

(** C1 (exact-argument-set law), as the code has it.  For every record
    shape and every call with positional values [args] and keyword
    bindings [kwargs], none of them named [self] or [cls]: construction
    succeeds exactly when the positional values can be bound to the first
    schema names, the bound names together with the keyword names are the
    schema's name set, and no name is bound twice; on success every schema
    name is bound on the instance, each keyword holds its value and each
    positional name the value bound to it; on failure the exception is, in
    the order the checks are made, [TooManyArguments], [DuplicateArgument]
    with the colliding names, [MissingAttributes] with the unbound names,
    or [UnexpectedAttributes] with the names outside the schema. *)
Theorem construct_exact_argument_set (cls : pyclass) (args : list pyval)
    (kwargs : gmap string pyval) :
  kwargs !! "self" = None → kwargs !! "cls" = None →
  let schema := EntryBase._get_all_attributes cls in
  let positional := positional_names schema args in
  let outcome := EntryBase.construct cls args kwargs in
  ((∃ inst, outcome = Ok inst) ↔
     (length args ≤ length schema)%nat ∧
     positional ∪ dom kwargs = list_to_set schema ∧
     positional ∩ dom kwargs = ∅)
  ∧ (∀ inst, outcome = Ok inst →
       inst_class inst = cls ∧
       (∀ name, name ∈ schema → is_Some (inst_dict inst !! name)) ∧
       (∀ name v, kwargs !! name = Some v → inst_dict inst !! name = Some v) ∧
       (∀ i name v, schema !! i = Some name → args !! i = Some v →
          (∀ j, (i < j < length args)%nat → schema !! j ≠ Some name) →
          inst_dict inst !! name = Some v))
  ∧ (outcome = Err TooManyArguments ↔ (length schema < length args)%nat)
  ∧ (∀ names, outcome = Err (DuplicateArgument names) ↔
       (length args ≤ length schema)%nat ∧
       names = positional ∩ dom kwargs ∧ names ≠ ∅)
  ∧ (∀ names, outcome = Err (MissingAttributes names) ↔
       (length args ≤ length schema)%nat ∧ positional ∩ dom kwargs = ∅ ∧
       names = list_to_set schema ∖ (positional ∪ dom kwargs) ∧ names ≠ ∅)
  ∧ (∀ names, outcome = Err (UnexpectedAttributes names) ↔
       (length args ≤ length schema)%nat ∧ positional ∩ dom kwargs = ∅ ∧
       list_to_set schema ⊆ positional ∪ dom kwargs ∧
       names = dom kwargs ∖ list_to_set schema ∧ names ≠ ∅)
  ∧ (∀ e, outcome = Err e →
       e = TooManyArguments ∨ (∃ names, e = DuplicateArgument names)
       ∨ (∃ names, e = MissingAttributes names)
       ∨ (∃ names, e = UnexpectedAttributes names)).
Proof.
  intros Hself Hcls schema positional outcome.
  split; [by apply construct_Ok_iff|].
  split; [by apply construct_Ok_dict|].
  split; [by apply construct_TooManyArguments_iff|].
  split; [intros names; by apply construct_DuplicateArgument_iff|].
  split; [intros names; by apply construct_MissingAttributes_iff|].
  split; [intros names; by apply construct_UnexpectedAttributes_iff|].
  by apply construct_Err_kinds.
Qed.

Lemma construct_exact_argument_set_witness :
  ({["phone" := VInt 1234]} : gmap string pyval) !! "self" = None
  ∧ ({["phone" := VInt 1234]} : gmap string pyval) !! "cls" = None
  ∧ ∃ inst,
      EntryBase.construct PhoneEntry [VStr "ana"] {["phone" := VInt 1234]}
      = Ok inst.
Proof.
  assert (({["phone" := VInt 1234]} : gmap string pyval) !! "self" = None)
    as Hself by reflexivity.
  assert (({["phone" := VInt 1234]} : gmap string pyval) !! "cls" = None)
    as Hcls by reflexivity.
  split; [exact Hself|]. split; [exact Hcls|].
  destruct (construct_exact_argument_set PhoneEntry [VStr "ana"]
              {["phone" := VInt 1234]} Hself Hcls) as [Hiff _].
  apply Hiff. split; [simpl; lia|].
  rewrite dom_singleton_L. unfold positional_names. simpl.
  split; set_solver.
Defined.

(** C1 as stated fails.  [SelfEntry] has the schema [(self)]; the call
    [SelfEntry(self=1)] binds exactly the schema's names and none twice,
    and yet it raises, and none of the four exceptions of [__init__]:
    the interpreter refuses the keyword before [__init__] runs.  The same
    value passed by position builds the record. *)
Lemma construct_self_keyword_counterexample :
  EntryBase._get_all_attributes SelfEntry = ["self"]
  ∧ (length ([] : list pyval) ≤ length ["self"])%nat
  ∧ positional_names ["self"] []
      ∪ dom ({["self" := VInt 1]} : gmap string pyval)
    = list_to_set ["self"]
  ∧ positional_names ["self"] []
      ∩ dom ({["self" := VInt 1]} : gmap string pyval) = ∅
  ∧ EntryBase.construct SelfEntry [] {["self" := VInt 1]}
    = Err MultipleValues
  ∧ (∃ inst, EntryBase.construct SelfEntry [VInt 1] ∅ = Ok inst
             ∧ inst_dict inst !! "self" = Some (VInt 1)).
Proof.
  split; [reflexivity|]. split; [simpl; lia|].
  rewrite dom_singleton_L. unfold positional_names. simpl.
  split; [set_solver|]. split; [set_solver|]. split; [reflexivity|].
  eexists. split; reflexivity.
Qed.

(** The two construction scenarios of the specification. *)
Example construct_ana :
  ∃ inst, EntryBase.construct PhoneEntry [VStr "ana"; VInt 1234] ∅ = Ok inst
          ∧ inst_dict inst !! "name" = Some (VStr "ana")
          ∧ inst_dict inst !! "phone" = Some (VInt 1234).
Proof. eexists. split; [reflexivity|]. split; reflexivity. Qed.

Example construct_duplicate_phone :
  EntryBase.construct PhoneEntry [VStr "ana"; VInt 1] {["phone" := VInt 2]}
  = Err (DuplicateArgument {["phone"]}).
Proof.
  apply construct_DuplicateArgument_iff; [reflexivity..|].
  split; [simpl; lia|].
  assert (positional_names (EntryBase._get_all_attributes PhoneEntry)
            [VStr "ana"; VInt 1] ∩ dom ({["phone" := VInt 2]} : gmap string pyval)
          = ({["phone"]} : gset string)) as ->.
  { rewrite dom_singleton_L. unfold positional_names. simpl. set_solver. }
  split; [done|]. set_solver.
Qed.

(** ** The locked state *)

Lemma locked_record_bound schema self name :
  locked_record schema self → name ∈ schema →
  ∃ v, inst_dict self !! name = Some v.
Proof.
  intros (_ & _ & Hdom) Hname. apply elem_of_dom. rewrite Hdom.
  apply elem_of_union_l. by apply elem_of_list_to_set.
Qed.

Lemma getitem_locked_in schema self name :
  locked_record schema self → name ∈ schema →
  ∃ v, inst_dict self !! name = Some v ∧ EntryBase.__getitem__ self name = Ok v.
Proof.
  intros Hlocked Hname.
  destruct (locked_record_bound _ _ _ Hlocked Hname) as [v Hv].
  exists v. split; [done|]. destruct Hlocked as (Hattrs & _ & _).
  unfold EntryBase.__getitem__, getattr. rewrite Hattrs. cbn [rbind].
  rewrite py_in_tuple_of_names. cbn [rbind].
  rewrite bool_decide_eq_true_2 by done. by rewrite Hv.
Qed.

Lemma getitem_locked_out schema self name :
  locked_record schema self → name ∉ schema →
  EntryBase.__getitem__ self name = Err (UnknownAttribute name).
Proof.
  intros (Hattrs & _ & _) Hname.
  unfold EntryBase.__getitem__, getattr. rewrite Hattrs. cbn [rbind].
  rewrite py_in_tuple_of_names. cbn [rbind].
  by rewrite bool_decide_eq_false_2.
Qed.

(** X18.  Indexed lookup where it works: for every record that carries
    its schema in its [attributes] entry and is locked, the schema having
    no name of the form [__x__], and for every name: lookup returns the
    value currently stored under the name when the name is in the schema,
    and fails with [UnknownAttribute] when it is not. *)
Theorem getitem_locked (schema : list string) (self : instance) (name : string) :
  ordinary_names schema →
  locked_record schema self →
  (name ∈ schema →
     ∃ v, inst_dict self !! name = Some v
          ∧ EntryBase.__getitem__ self name = Ok v)
  ∧ (name ∉ schema →
     EntryBase.__getitem__ self name = Err (UnknownAttribute name)).
Proof.
  intros _ Hlocked. split; intros Hname.
  - by eapply getitem_locked_in.
  - by eapply getitem_locked_out.
Qed.

Lemma setattr_locked_in schema self name value :
  locked_record schema self → name ∈ schema →
  EntryBase.__setattr__ self name value
  = Ok (Instance (inst_class self) (<[name := value]> (inst_dict self))).
Proof.
  intros (Hattrs & (flag & Hflag & Hfalse) & _) Hname.
  unfold EntryBase.__setattr__, getattr. rewrite Hflag. cbn [rbind].
  rewrite Hfalse, Hattrs. cbn [rbind].
  rewrite py_in_tuple_of_names. cbn [rbind].
  by rewrite bool_decide_eq_true_2.
Qed.

Lemma setattr_locked_out schema self name value :
  locked_record schema self → name ∉ schema →
  EntryBase.__setattr__ self name value = Err (ForbiddenAttributeSet name).
Proof.
  intros (Hattrs & (flag & Hflag & Hfalse) & _) Hname.
  unfold EntryBase.__setattr__, getattr. rewrite Hflag. cbn [rbind].
  rewrite Hfalse, Hattrs. cbn [rbind].
  rewrite py_in_tuple_of_names. cbn [rbind].
  by rewrite bool_decide_eq_false_2.
Qed.

(** Overwriting a schema name keeps a record locked, as long as the name
    is none of the bookkeeping names. *)
Lemma locked_record_insert schema self name value :
  plain_names schema → locked_record schema self → name ∈ schema →
  locked_record schema
    (Instance (inst_class self) (<[name := value]> (inst_dict self))).
Proof.
  intros [Hna Hnf] (Hattrs & (flag & Hflag & Hfalse) & Hdom) Hname.
  assert (name ≠ "attributes") by (intros ->; done).
  assert (name ≠ "_can_set_any_attr") by (intros ->; done).
  split; [|split]; cbn [inst_dict].
  - by rewrite lookup_insert_ne.
  - exists flag. by rewrite lookup_insert_ne.
  - rewrite dom_insert_L, Hdom.
    assert (name ∈ (list_to_set schema : gset string))
      by (apply elem_of_list_to_set; done).
    set_solver.
Qed.

(** A constructed record is locked, when the schema has plain names. *)
Lemma construct_locked cls args kwargs inst :
  plain_names (EntryBase._get_all_attributes cls) →
  EntryBase.construct cls args kwargs = Ok inst →
  inst_class inst = cls
  ∧ locked_record (EntryBase._get_all_attributes cls) inst.
Proof.
  intros [Hna Hnf] Hok.
  apply construct_Ok_inv in Hok as [-> Hdom]. split; [done|].
  set (schema := EntryBase._get_all_attributes cls) in *.
  set (merged := py_dict (zip schema args) ∪ kwargs) in *.
  assert (∀ name, name ∉ schema → merged !! name = None) as Hout.
  { intros name Hn. apply not_elem_of_dom. rewrite Hdom.
    by rewrite elem_of_list_to_set. }
  split; [|split]; cbn [inst_dict].
  - rewrite lookup_union_r by auto. apply new_dict_lookup_attributes.
  - exists (VBool false). split; [|done].
    rewrite lookup_union_r by auto. apply new_dict_lookup_flag.
  - by rewrite dom_union_L, Hdom, dom_new_dict.
Qed.

Lemma assign_locked schema self op :
  plain_names schema → locked_record schema self →
  locked_record schema (assign self op)
  ∧ inst_class (assign self op) = inst_class self
  ∧ dom (inst_dict (assign self op)) = dom (inst_dict self).
Proof.
  intros Hplain Hlocked. destruct op as [name value]. unfold assign.
  cbn [fst snd]. destruct (decide (name ∈ schema)) as [Hin|Hout].
  - rewrite (setattr_locked_in schema) by done.
    pose proof (locked_record_insert _ _ _ value Hplain Hlocked Hin) as Hl.
    split; [done|]. split; [done|].
    destruct Hl as (_ & _ & ->). by destruct Hlocked as (_ & _ & ->).
  - by rewrite (setattr_locked_out schema).
Qed.

Lemma assign_all_locked schema self ops :
  plain_names schema → locked_record schema self →
  locked_record schema (assign_all self ops)
  ∧ inst_class (assign_all self ops) = inst_class self
  ∧ dom (inst_dict (assign_all self ops)) = dom (inst_dict self).
Proof.
  intros Hplain. revert self. unfold assign_all.
  induction ops as [|op ops IH]; intros self Hlocked; [done|].
  cbn [foldl].
  destruct (assign_locked schema self op Hplain Hlocked) as (Hl & Hc & Hd).
  destruct (IH _ Hl) as (Hl' & Hc' & Hd').
  split; [done|]. split; congruence.
Qed.

(** X17.  The lock invariant where it holds: for a record shape whose
    schema uses neither the bookkeeping names [attributes] and
    [_can_set_any_attr] nor a name of the form [__x__], and for every
    record constructed from it, after
    any sequence of attempted assignments: assigning to a schema name
    succeeds and overwrites the stored value, assigning to any other name
    fails with [ForbiddenAttributeSet], and the set of names bound on the
    instance is the one construction left. *)
Theorem lock_invariant (cls : pyclass) (args : list pyval)
    (kwargs : gmap string pyval) (inst : instance)
    (ops : list (string * pyval)) (name : string) (value : pyval) :
  let schema := EntryBase._get_all_attributes cls in
  let self := assign_all inst ops in
  plain_names schema → ordinary_names schema →
  EntryBase.construct cls args kwargs = Ok inst →
  dom (inst_dict self) = dom (inst_dict inst)
  ∧ (name ∈ schema →
       ∃ self', EntryBase.__setattr__ self name value = Ok self'
                ∧ inst_dict self' = <[name := value]> (inst_dict self)
                ∧ dom (inst_dict self') = dom (inst_dict inst)
                ∧ EntryBase.__getitem__ self' name = Ok value)
  ∧ (name ∉ schema →
       EntryBase.__setattr__ self name value = Err (ForbiddenAttributeSet name)).
Proof.
  intros schema self Hplain _ Hok.
  apply construct_locked in Hok as [_ Hlocked]; [|done].
  destruct (assign_all_locked schema inst ops Hplain Hlocked)
    as (Hl & _ & Hd). fold self in Hl, Hd.
  split; [done|]. split; intros Hname.
  - eexists. split; [by apply (setattr_locked_in schema)|].
    pose proof (locked_record_insert _ _ _ value Hplain Hl Hname) as Hl'.
    split; [done|]. split.
    + destruct Hl' as (_ & _ & ->). by destruct Hlocked as (_ & _ & ->).
    + destruct (getitem_locked_in _ _ _ Hl' Hname) as (v & Hv & ->).
      cbn [inst_dict] in Hv. rewrite lookup_insert_eq in Hv. congruence.
  - by apply (setattr_locked_out schema).
Qed.

(** Indexed lookup on a constructed record, after any attempted
    assignments, for a schema with plain and ordinary names. *)
Corollary getitem_constructed (cls : pyclass) (args : list pyval)
    (kwargs : gmap string pyval) (inst : instance)
    (ops : list (string * pyval)) (name : string) :
  let schema := EntryBase._get_all_attributes cls in
  let self := assign_all inst ops in
  plain_names schema → ordinary_names schema →
  EntryBase.construct cls args kwargs = Ok inst →
  (name ∈ schema →
     ∃ v, inst_dict self !! name = Some v
          ∧ EntryBase.__getitem__ self name = Ok v)
  ∧ (name ∉ schema →
     EntryBase.__getitem__ self name = Err (UnknownAttribute name)).
Proof.
  intros schema self Hplain _ Hok.
  apply construct_locked in Hok as [_ Hlocked]; [|done].
  destruct (assign_all_locked schema inst ops Hplain Hlocked) as (Hl & _).
  split; intros Hname.
  - by eapply getitem_locked_in.
  - by eapply getitem_locked_out.
Qed.

(** *** Concrete records *)

Lemma construct_ana_eq :
  EntryBase.construct PhoneEntry [VStr "ana"; VInt 1234] ∅ = Ok ana.
Proof. reflexivity. Qed.

Lemma construct_bob_eq :
  EntryBase.construct PhoneEntry [VStr "bob"; VInt 5678] ∅ = Ok bob.
Proof. reflexivity. Qed.

Lemma plain_names_PhoneEntry :
  plain_names (EntryBase._get_all_attributes PhoneEntry).
Proof. split; simpl; set_solver. Qed.

Lemma locked_ana : locked_record ["name"; "phone"] ana.
Proof.
  split; [reflexivity|]. split; [by exists (VBool false)|]. reflexivity.
Qed.

Lemma getitem_locked_witness :
  ordinary_names ["name"; "phone"]
  ∧ locked_record ["name"; "phone"] ana
  ∧ (("name" ∈ ["name"; "phone"] →
        ∃ v, inst_dict ana !! "name" = Some v
             ∧ EntryBase.__getitem__ ana "name" = Ok v)
     ∧ ("name" ∉ ["name"; "phone"] →
        EntryBase.__getitem__ ana "name" = Err (UnknownAttribute "name"))).
Proof.
  assert (ordinary_names ["name"; "phone"]) as Hord
    by (repeat constructor).
  assert (locked_record ["name"; "phone"] ana) as H.
  { split; [reflexivity|]. split; [by exists (VBool false)|]. reflexivity. }
  split; [exact Hord|]. split; [exact H|].
  exact (getitem_locked ["name"; "phone"] ana "name" Hord H).
Defined.

(** C8, evaluated on a shape whose schema uses the bookkeeping name
    [attributes].  [SchemaEntry(())] is constructed, and so locked; the
    value bound to its schema name [attributes] has replaced the schema
    that [__getitem__] consults, and lookup of that schema name raises
    [UnknownAttribute] instead of returning the stored value. *)
Theorem getitem_reserved_name :
  ∃ inst,
    EntryBase.construct SchemaEntry [VTuple []] ∅ = Ok inst
    ∧ "attributes" ∈ EntryBase._get_all_attributes SchemaEntry
    ∧ inst_dict inst !! "attributes" = Some (VTuple [])
    ∧ inst_dict inst !! "_can_set_any_attr" = Some (VBool false)
    ∧ EntryBase.__getitem__ inst "attributes"
      = Err (UnknownAttribute "attributes").
Proof.
  eexists. split; [reflexivity|]. split; [compute_done|].
  split; [reflexivity|]. split; reflexivity.
Qed.

Lemma lock_invariant_witness :
  plain_names (EntryBase._get_all_attributes PhoneEntry)
  ∧ ordinary_names (EntryBase._get_all_attributes PhoneEntry)
  ∧ EntryBase.construct PhoneEntry [VStr "ana"; VInt 1234] ∅ = Ok ana
  ∧ let self := assign_all ana [("phone", VInt 1); ("nickname", VStr "an")] in
    dom (inst_dict self) = dom (inst_dict ana)
    ∧ ("name" ∈ EntryBase._get_all_attributes PhoneEntry →
       ∃ self', EntryBase.__setattr__ self "name" (VStr "anna") = Ok self'
                ∧ inst_dict self' = <["name" := VStr "anna"]> (inst_dict self)
                ∧ dom (inst_dict self') = dom (inst_dict ana)
                ∧ EntryBase.__getitem__ self' "name" = Ok (VStr "anna"))
    ∧ ("name" ∉ EntryBase._get_all_attributes PhoneEntry →
       EntryBase.__setattr__ self "name" (VStr "anna")
       = Err (ForbiddenAttributeSet "name")).
Proof.
  assert (plain_names (EntryBase._get_all_attributes PhoneEntry)) as Hplain.
  { split; compute_done. }
  assert (ordinary_names (EntryBase._get_all_attributes PhoneEntry)) as Hord.
  { repeat constructor. }
  split; [exact Hplain|]. split; [exact Hord|]. split; [reflexivity|].
  exact (lock_invariant PhoneEntry [VStr "ana"; VInt 1234] ∅ ana
           [("phone", VInt 1); ("nickname", VStr "an")] "name" (VStr "anna")
           Hplain Hord eq_refl).
Defined.

(** C3, evaluated on two shapes whose schema uses a bookkeeping name.
    [FlagEntry(True)] is constructed with its lock open, so a name outside
    the schema is accepted and the name set grows.  [FlagEntry(False)] is
    locked, but assigning [True] to its schema name [_can_set_any_attr]
    opens the lock, and the next assignment outside the schema is
    accepted.  On [SchemaEntry(())] the value bound to [attributes] has
    replaced the schema, so assigning to the schema name [attributes] is
    refused. *)
Theorem lock_invariant_reserved_names :
  (∃ inst inst',
     EntryBase.construct FlagEntry [VBool true] ∅ = Ok inst
     ∧ ("nickname" ∉ EntryBase._get_all_attributes FlagEntry)
     ∧ EntryBase.__setattr__ inst "nickname" (VInt 1) = Ok inst'
     ∧ inst_dict inst !! "nickname" = None
     ∧ inst_dict inst' !! "nickname" = Some (VInt 1))
  ∧ (∃ inst inst' inst'',
     EntryBase.construct FlagEntry [VBool false] ∅ = Ok inst
     ∧ locked_record (EntryBase._get_all_attributes FlagEntry) inst
     ∧ EntryBase.__setattr__ inst "nickname" (VInt 1)
       = Err (ForbiddenAttributeSet "nickname")
     ∧ EntryBase.__setattr__ inst "_can_set_any_attr" (VBool true) = Ok inst'
     ∧ EntryBase.__setattr__ inst' "nickname" (VInt 1) = Ok inst''
     ∧ inst_dict inst'' !! "nickname" = Some (VInt 1))
  ∧ (∃ inst,
     EntryBase.construct SchemaEntry [VTuple []] ∅ = Ok inst
     ∧ "attributes" ∈ EntryBase._get_all_attributes SchemaEntry
     ∧ EntryBase.__setattr__ inst "attributes" (VInt 5)
       = Err (ForbiddenAttributeSet "attributes")).
Proof.
  split; [|split].
  - eexists _, _. split; [reflexivity|]. split; [compute_done|].
    split; [reflexivity|]. split; reflexivity.
  - eexists _, _, _. split; [reflexivity|]. split.
    { split; [reflexivity|]. split; [by exists (VBool false)|]. reflexivity. }
    split; [reflexivity|]. split; [reflexivity|]. split; reflexivity.
  - eexists. split; [reflexivity|]. split; [compute_done|]. reflexivity.
Qed.

(** ** Adding to a collection *)

(** C6.  For every collection and every argument list: if the new record
    is constructed, [add_contact] appends it as the last entry and keeps
    the earlier entries, in order; if construction raises, the same
    exception reaches the caller and the collection is what it was. *)
Theorem add_contact_atomic (self : book) (args : list pyval)
    (kwargs : gmap string pyval) :
  let outcome :=
    EntryBase.construct (ENTRY_TYPE (book_class self)) args kwargs in
  let after := (BookBase.add_contact self args kwargs).1 in
  (∀ entry, outcome = Ok entry →
     BookBase.add_contact self args kwargs
     = (Book (book_class self) (book_attributes self) (entries self ++ [entry]),
        Ok tt)
     ∧ take (length (entries self)) (entries after) = entries self
     ∧ entries after !! length (entries self) = Some entry
     ∧ length (entries after) = S (length (entries self)))
  ∧ (∀ e, outcome = Err e →
     BookBase.add_contact self args kwargs = (self, Err e)).
Proof.
  intros outcome after. subst outcome after.
  unfold BookBase.add_contact. split.
  - intros entry ->. cbn [fst entries]. split; [done|].
    split; [by rewrite take_app_length|].
    split; [by rewrite list_lookup_middle|].
    rewrite length_app. simpl. lia.
  - by intros e ->.
Qed.

Lemma add_all_entries self calls :
  entries (add_all self calls)
  = entries self ++ constructed (ENTRY_TYPE (book_class self)) calls
  ∧ book_class (add_all self calls) = book_class self.
Proof.
  revert self. unfold add_all.
  induction calls as [|[args kwargs] calls IH]; intros self.
  - simpl. by rewrite app_nil_r.
  - cbn [foldl fst snd].
    destruct (IH (BookBase.add_contact self args kwargs).1) as [-> ->].
    unfold BookBase.add_contact, constructed. cbn [omap list_omap fst snd].
    destruct (EntryBase.construct _ args kwargs) as [entry|e];
      cbn [fst entries book_class]; [|done].
    by rewrite <- app_assoc.
Qed.

Lemma create_add_all_entries cls calls :
  entries (add_all (BookBase.create cls) calls)
  = constructed (ENTRY_TYPE cls) calls.
Proof. by destruct (add_all_entries (BookBase.create cls) calls) as [-> _]. Qed.

(** ** Positional access *)

Lemma list_getitem_nonneg {A} (l : list A) (i : Z) :
  0 ≤ i < Z.of_nat (length l) →
  ∃ x, l !! Z.to_nat i = Some x ∧ list_getitem l i = Ok x.
Proof.
  intros Hi. unfold list_getitem. cbv zeta.
  destruct (decide (i < 0)) as [?|_]; [lia|].
  destruct (decide (0 ≤ i < Z.of_nat (length l))) as [_|?]; [|lia].
  destruct (lookup_lt_is_Some_2 l (Z.to_nat i)) as [x Hx]; [lia|].
  exists x. by rewrite Hx.
Qed.

Lemma list_getitem_beyond {A} (l : list A) (i : Z) :
  Z.of_nat (length l) ≤ i → list_getitem l i = Err IndexOutOfRange.
Proof.
  intros Hi. unfold list_getitem. cbv zeta.
  destruct (decide (i < 0)) as [?|_]; [lia|].
  destruct (decide (0 ≤ i < Z.of_nat (length l))) as [?|_]; [lia|done].
Qed.

Lemma list_getitem_negative {A} (l : list A) (i : Z) :
  1 ≤ i ≤ Z.of_nat (length l) →
  ∃ x, l !! Z.to_nat (Z.of_nat (length l) - i) = Some x
       ∧ list_getitem l (- i) = Ok x.
Proof.
  intros Hi. unfold list_getitem. cbv zeta.
  destruct (decide (- i < 0)) as [_|?]; [|lia].
  destruct (decide (0 ≤ - i + Z.of_nat (length l) < Z.of_nat (length l)))
    as [_|?]; [|lia].
  replace (- i + Z.of_nat (length l)) with (Z.of_nat (length l) - i) by lia.
  destruct (lookup_lt_is_Some_2 l (Z.to_nat (Z.of_nat (length l) - i)))
    as [x Hx]; [lia|].
  exists x. by rewrite Hx.
Qed.

Lemma list_getitem_below {A} (l : list A) (i : Z) :
  i < - Z.of_nat (length l) → list_getitem l i = Err IndexOutOfRange.
Proof.
  intros Hi. unfold list_getitem. cbv zeta.
  destruct (decide (i < 0)) as [_|?]; [|lia].
  destruct (decide (0 ≤ i + Z.of_nat (length l) < Z.of_nat (length l)))
    as [?|_]; [lia|done].
Qed.

(** C9.  For a collection built by any run of [add_contact] calls, with
    [added] the records those calls constructed, in call order: position
    [i] with [0 <= i < n] returns the record added [(i+1)]-th, and every
    position [i >= n] fails with [IndexOutOfRange]. *)
Theorem book_getitem_insertion_order (cls : bookclass)
    (calls : list (list pyval * gmap string pyval)) (i : Z) :
  let self := add_all (BookBase.create cls) calls in
  let added := constructed (ENTRY_TYPE cls) calls in
  let n := Z.of_nat (length added) in
  entries self = added
  ∧ (0 ≤ i < n →
       ∃ entry, added !! Z.to_nat i = Some entry
                ∧ BookBase.__getitem__ self i = Ok entry)
  ∧ (n ≤ i → BookBase.__getitem__ self i = Err IndexOutOfRange).
Proof.
  intros self added n. subst self added n.
  unfold BookBase.__getitem__. rewrite create_add_all_entries.
  split; [done|]. split.
  - apply list_getitem_nonneg.
  - apply list_getitem_beyond.
Qed.

Lemma two_entries_eq :
  two_entries = Book PhoneBook ["name"; "phone"] [ana; bob].
Proof. reflexivity. Qed.

Example two_entries_positions :
  BookBase.__getitem__ two_entries 0 = Ok ana
  ∧ BookBase.__getitem__ two_entries 1 = Ok bob
  ∧ BookBase.__getitem__ two_entries 2 = Err IndexOutOfRange.
Proof. rewrite two_entries_eq. repeat split. Qed.

(** C10.  For a collection of [n >= 1] entries and [1 <= i <= n],
    position [-i] returns the entry at position [n - i]. *)
Theorem book_getitem_negative (self : book) (i : Z) :
  let n := Z.of_nat (length (entries self)) in
  1 ≤ i ≤ n →
  ∃ entry, entries self !! Z.to_nat (n - i) = Some entry
           ∧ BookBase.__getitem__ self (- i) = Ok entry.
Proof. intros n. apply list_getitem_negative. Qed.

Lemma book_getitem_negative_witness :
  1 ≤ 1 ≤ Z.of_nat (length (entries two_entries))
  ∧ ∃ entry,
      entries two_entries
        !! Z.to_nat (Z.of_nat (length (entries two_entries)) - 1) = Some entry
      ∧ BookBase.__getitem__ two_entries (- 1) = Ok entry.
Proof.
  assert (1 ≤ 1 ≤ Z.of_nat (length (entries two_entries))) as H.
  { rewrite two_entries_eq. simpl. lia. }
  split; [exact H|]. exact (book_getitem_negative two_entries 1 H).
Defined.

Example two_entries_last :
  BookBase.__getitem__ two_entries (-1) = Ok bob
  ∧ BookBase.__getitem__ two_entries (-2) = Ok ana
  ∧ BookBase.__getitem__ two_entries (-3) = Err IndexOutOfRange.
Proof. rewrite two_entries_eq. repeat split. Qed.

(** ** Searching a collection *)

Lemma entry_found_in_schema schema entry kwargs :
  locked_record schema entry →
  Forall (λ kv, kv.1 ∈ schema) kwargs →
  BookBase.entry_found entry kwargs = Ok (entry_matches kwargs entry).
Proof.
  intros Hlocked. induction 1 as [|[kw value] kwargs Hkw _ IH]; [done|].
  cbn [BookBase.entry_found entry_matches forallb fst snd] in *.
  destruct (getitem_locked_in _ _ _ Hlocked Hkw) as (v & -> & ->).
  cbn [rbind]. destruct (py_eq v value); [|done]. by rewrite IH.
Qed.

(** With a criterion name outside the schema, the lookup is reached on
    the entries that match every criterion before it, and raises there. *)
Lemma entry_found_unknown schema entry pre kw value post :
  locked_record schema entry →
  Forall (λ kv, kv.1 ∈ schema) pre → kw ∉ schema →
  BookBase.entry_found entry (pre ++ (kw, value) :: post)
  = if entry_matches pre entry then Err (UnknownAttribute kw) else Ok false.
Proof.
  intros Hlocked Hpre Hkw.
  induction Hpre as [|[kw' value'] pre Hkw' _ IH].
  - cbn [app BookBase.entry_found entry_matches forallb].
    by rewrite (getitem_locked_out schema).
  - cbn [app BookBase.entry_found entry_matches forallb fst snd] in *.
    destruct (getitem_locked_in _ _ _ Hlocked Hkw') as (v & -> & ->).
    cbn [rbind]. destruct (py_eq v value'); [|done]. by rewrite IH.
Qed.

(** A call of [find] that no criterion stops is the loop. *)
Lemma names_self_false kwargs :
  BookBase.names_self kwargs = false ↔ Forall (λ kv, kv.1 ≠ "self") kwargs.
Proof.
  unfold BookBase.names_self. induction kwargs as [|[kw v] kwargs IH].
  - by split; [constructor|].
  - cbn [existsb fst]. rewrite orb_false_iff, IH, Forall_cons.
    cbn [fst]. by rewrite String.eqb_neq.
Qed.

Lemma find_unfold self kwargs :
  Forall (λ kv, kv.1 ≠ "self") kwargs →
  BookBase.find self kwargs = BookBase.find_loop [] (entries self) kwargs.
Proof.
  intros Hself%names_self_false. unfold BookBase.find. by rewrite Hself.
Qed.

Lemma find_Ok_inv self kwargs matches :
  BookBase.find self kwargs = Ok matches →
  Forall (λ kv, kv.1 ≠ "self") kwargs
  ∧ BookBase.find_loop [] (entries self) kwargs = Ok matches.
Proof.
  unfold BookBase.find. destruct (BookBase.names_self kwargs) eqn:Hself; [done|].
  by apply names_self_false in Hself.
Qed.

Lemma find_loop_in_schema schema matches rest kwargs :
  Forall (locked_record schema) rest →
  Forall (λ kv, kv.1 ∈ schema) kwargs →
  BookBase.find_loop matches rest kwargs
  = Ok (matches ++ filter (λ e, entry_matches kwargs e = true) rest).
Proof.
  intros Hrest Hkwargs. revert matches.
  induction Hrest as [|entry rest Hentry _ IH]; intros matches.
  - simpl. by rewrite app_nil_r.
  - cbn [BookBase.find_loop].
    rewrite (entry_found_in_schema schema) by done. cbn [rbind].
    rewrite IH. destruct (entry_matches kwargs entry) eqn:Hm.
    + rewrite filter_cons_True by done. by rewrite <- app_assoc.
    + rewrite filter_cons_False; [done|]. by rewrite Hm.
Qed.

Lemma find_loop_unknown schema matches rest pre kw value post :
  Forall (locked_record schema) rest →
  Forall (λ kv, kv.1 ∈ schema) pre → kw ∉ schema →
  BookBase.find_loop matches rest (pre ++ (kw, value) :: post)
  = if existsb (entry_matches pre) rest then Err (UnknownAttribute kw)
    else Ok matches.
Proof.
  intros Hrest Hpre Hkw.
  induction Hrest as [|entry rest Hentry _ IH]; [done|].
  cbn [BookBase.find_loop existsb].
  rewrite (entry_found_unknown schema) by done.
  destruct (entry_matches pre entry); [done|]. cbn [rbind orb]. apply IH.
Qed.

Lemma filter_all {A} (P : A → Prop) `{∀ x, Decision (P x)} (l : list A) :
  (∀ x, x ∈ l → P x) → filter P l = l.
Proof.
  induction l as [|x l IH]; intros HP; [done|].
  rewrite filter_cons_True by (apply HP; by left).
  rewrite IH; [done|]. intros y Hy. apply HP. by right.
Qed.

Lemma filter_none {A} (P : A → Prop) `{∀ x, Decision (P x)} (l : list A) :
  (∀ x, x ∈ l → ¬ P x) → filter P l = [].
Proof.
  induction l as [|x l IH]; intros HP; [done|].
  rewrite filter_cons_False by (apply HP; by left).
  apply IH. intros y Hy. apply HP. by right.
Qed.

(** C4, as the code has it.  For every collection whose stored records
    are locked records carrying [schema], a schema without names of the
    form [__x__], and every list of keyword criteria (in the order they
    were passed), none of them named [self]:
    - when every criterion name is a schema name, [find] returns, in
      insertion order, exactly the stored records whose value under each
      criterion name equals the criterion value; with no criteria these
      are all the entries, and with no match the result is empty;
    - a criterion name outside the schema makes the lookup on a record
      raise [UnknownAttribute]; [find] raises it when some stored record
      matches every criterion passed before that name, and otherwise
      returns the empty list, the lookup never being reached. *)
Theorem find_conjunction (schema : list string) (self : book)
    (kwargs : list (string * pyval)) :
  ordinary_names schema →
  Forall (locked_record schema) (entries self) →
  Forall (λ kv, kv.1 ≠ "self") kwargs →
  (Forall (λ kv, kv.1 ∈ schema) kwargs →
     BookBase.find self kwargs
     = Ok (filter (λ e, entry_matches kwargs e = true) (entries self)))
  ∧ BookBase.find self [] = Ok (entries self)
  ∧ (Forall (λ kv, kv.1 ∈ schema) kwargs →
     (∀ e, e ∈ entries self → entry_matches kwargs e = false) →
     BookBase.find self kwargs = Ok [])
  ∧ (∀ pre kw value post,
       kwargs = pre ++ (kw, value) :: post →
       Forall (λ kv, kv.1 ∈ schema) pre → kw ∉ schema →
       (∀ e, e ∈ entries self →
          EntryBase.__getitem__ e kw = Err (UnknownAttribute kw))
       ∧ BookBase.find self kwargs
         = if existsb (entry_matches pre) (entries self)
           then Err (UnknownAttribute kw) else Ok []).
Proof.
  intros _ Hentries Hself. rewrite (find_unfold self kwargs Hself).
  rewrite (find_unfold self []) by constructor.
  split; [|split; [|split]].
  - intros Hkwargs. by rewrite (find_loop_in_schema schema).
  - rewrite (find_loop_in_schema schema) by done. simpl. f_equal.
    by apply filter_all.
  - intros Hkwargs Hnone. rewrite (find_loop_in_schema schema) by done.
    simpl. f_equal. apply filter_none. intros e He. by rewrite Hnone.
  - intros pre kw value post -> Hpre Hkw. split.
    + intros e He. apply (getitem_locked_out schema); [|done].
      by apply (proj1 (Forall_forall _ _) Hentries).
    + by apply (find_loop_unknown schema).
Qed.

(** The records of a collection built by [add_contact] calls are locked
    records carrying the schema of the bound shape, when that schema has
    plain names. *)
Lemma add_all_locked (cls : bookclass) calls :
  plain_names (EntryBase._get_all_attributes (ENTRY_TYPE cls)) →
  Forall (locked_record (EntryBase._get_all_attributes (ENTRY_TYPE cls)))
         (entries (add_all (BookBase.create cls) calls)).
Proof.
  intros Hplain. rewrite create_add_all_entries. unfold constructed.
  apply Forall_forall. intros e He.
  apply list_elem_of_omap in He as ([args kwargs] & _ & Hc).
  cbn [fst snd] in Hc.
  destruct (EntryBase.construct _ args kwargs) as [e'|] eqn:Hok; [|done].
  injection Hc as ->. by apply (construct_locked _ _ _ _ Hplain) in Hok as [_ ?].
Qed.

Lemma two_entries_locked :
  Forall (locked_record ["name"; "phone"]) (entries two_entries).
Proof. apply (add_all_locked PhoneBook), plain_names_PhoneEntry. Qed.

Lemma find_conjunction_witness :
  ordinary_names ["name"; "phone"]
  ∧ Forall (locked_record ["name"; "phone"]) (entries two_entries)
  ∧ Forall (λ kv : string * pyval, kv.1 ≠ "self") [("name", VStr "ana")]
  ∧ BookBase.find two_entries [("name", VStr "ana")] = Ok [ana]
  ∧ BookBase.find two_entries [("phone", VInt 9999)] = Ok []
  ∧ BookBase.find two_entries [] = Ok [ana; bob].
Proof.
  assert (ordinary_names ["name"; "phone"]) as Hord by (repeat constructor).
  assert (Forall (locked_record ["name"; "phone"]) (entries two_entries)) as H.
  { repeat constructor; try reflexivity; by exists (VBool false). }
  assert (Forall (λ kv : string * pyval, kv.1 ≠ "self")
            [("name", VStr "ana")]) as Hself by (repeat constructor; done).
  split; [exact Hord|]. split; [exact H|]. split; [exact Hself|].
  split; [|split].
  - destruct (find_conjunction ["name"; "phone"] two_entries
                [("name", VStr "ana")] Hord H Hself) as [Hfind _].
    rewrite Hfind; [reflexivity|]. by repeat constructor.
  - destruct (find_conjunction ["name"; "phone"] two_entries
                [("phone", VInt 9999)] Hord H) as [Hfind _];
      [by repeat constructor|].
    rewrite Hfind; [reflexivity|]. by repeat constructor.
  - destruct (find_conjunction ["name"; "phone"] two_entries [] Hord H)
      as (_ & -> & _); [constructor|done].
Defined.

(** C4 as stated fails.  A criterion name outside the schema does not
    make [find] raise when the collection is empty, nor when an earlier
    criterion has already ruled every record out: the result is the empty
    list, as for a non-match; the same name raises when the lookup is
    reached.  On a shape whose schema uses the bookkeeping name
    [attributes], a criterion on that schema name raises although the
    stored value equals the criterion value.  And a criterion named [self]
    raises before any record is looked at, whatever the schema. *)
Lemma find_conjunction_counterexample :
  ("nickname" ∉ EntryBase._get_all_attributes PhoneEntry)
  ∧ BookBase.find (BookBase.create PhoneBook) [("nickname", VInt 1)] = Ok []
  ∧ BookBase.find two_entries [("name", VStr "zed"); ("nickname", VInt 1)]
    = Ok []
  ∧ BookBase.find two_entries [("nickname", VInt 1); ("name", VStr "zed")]
    = Err (UnknownAttribute "nickname")
  ∧ "attributes" ∈ EntryBase._get_all_attributes SchemaEntry
  ∧ (∃ e, entries schema_entry_book = [e]
          ∧ inst_dict e !! "attributes" = Some (VTuple []))
  ∧ BookBase.find schema_entry_book [("attributes", VTuple [])]
    = Err (UnknownAttribute "attributes")
  ∧ BookBase.find (BookBase.create PhoneBook) [("self", VInt 1)]
    = Err MultipleValues.
Proof.
  split; [compute_done|]. split; [reflexivity|]. split; [reflexivity|].
  split; [reflexivity|]. split; [compute_done|].
  split; [|split; reflexivity]. eexists. split; reflexivity.
Qed.

(** ** The schema on the instances *)






(** * Properties of [create_copy] *)

(** ** Snapshots *)







(** *** Dictionaries, entry by entry *)







(** ** Deep copies *)

(** In a store without special names no instance binds a copy hook. *)
Lemma plain_store_lookup (h : heap) l k d :
  plain_store h = true → h !! l = Some (OInst k d) → hooked d = false.
Proof.
  intros Hplain Hl. unfold plain_store in Hplain.
  rewrite forallb_forall in Hplain.
  specialize (Hplain (OInst k d)). cbn beta iota in Hplain.
  rewrite forallb_forall in Hplain.
  assert (∀ name, special_name name = true → d !! name = None) as Hnone.
  { intros name Hname. destruct (d !! name) as [v|] eqn:Hv; [|done].
    assert (negb (special_name name) = true) as Hneg; [|by rewrite Hname in Hneg].
    apply Hplain.
    - apply list_elem_of_In. by eapply list_elem_of_lookup_2.
    - apply list_elem_of_In, list_elem_of_fmap. exists (name, v).
      split; [done|]. by apply elem_of_map_to_list. }
  unfold hooked. rewrite !Hnone by reflexivity.
  rewrite !bool_decide_eq_false_2; [done|by intros [? ?]..].
Qed.

Section deepcopy.
Context (h0 : heap) (Hwf : wf_heap h0) (Hplain : plain_store h0 = true).














End deepcopy.

(** ** [create_copy] *)




Lemma deepcopy_ref_fresh fuel l (st st' : copy_state) y :
  st.2 !! l = None →
  deepcopy fuel (HRef l) st = Some (y, st') → y = HRef (length st.1).
Proof.
  intros Hmemo. destruct fuel as [|fuel]; [done|]. cbn [deepcopy].
  rewrite Hmemo. destruct (st.1 !! l) as [[items|kl d]|]; [| |done].
  - destruct (copy_items _ _ _) as [[ys st2]|]; [|done]. by intros [= <- _].
  - destruct (hooked d); [done|].
    destruct (copy_items _ _ _) as [[ys st2]|]; [|done]. by intros [= <- _].
Qed.


(** *** Collections in the store *)


Lemma scenario_heap_wf : wf_heap scenario_heap.
Proof.
  intros l k d Hl.
  do 5 (destruct l as [|l]; [simpl in Hl; simplify_eq; try compute_done|]).
  done.
Qed.

Lemma scenario_heap_snapshot :
  snapshot_of 6 (view scenario_heap) (HRef 0%nat)
  = Some (book_snapshot scenario_book).
Proof. vm_compute. reflexivity. Qed.



(** Copy the scenario book, then change ana's record in the copy and
    the list nested in it: the copy shows the changes, the original does
    not; and the other way round. *)
Example copy_then_mutate :
  ∃ h', BookStore.create_copy 6 scenario_heap 0%nat = Some (5%nat, h')
        ∧ (let in_copy :=
             store_append (store_setattr h' 7%nat "name" (HStr "anna"))
                          8%nat (HInt 7) in
           snapshot_of 6 (view in_copy) (HRef 5%nat)
           = Some (book_snapshot scenario_book_changed)
           ∧ snapshot_of 6 (view in_copy) (HRef 0%nat)
             = Some (book_snapshot scenario_book))
        ∧ (let in_original :=
             store_append (store_setattr h' 2%nat "name" (HStr "anna"))
                          3%nat (HInt 7) in
           snapshot_of 6 (view in_original) (HRef 0%nat)
           = Some (book_snapshot scenario_book_changed)
           ∧ snapshot_of 6 (view in_original) (HRef 5%nat)
             = Some (book_snapshot scenario_book)).
Proof.
  eexists. split; [vm_compute; reflexivity|].
  split; split; vm_compute; reflexivity.
Qed.

(** Without the copy the two names are aliases: a second reference to
    the same collection sees every change. *)
Example alias_shares_state :
  let changed :=
    store_append (store_setattr scenario_heap 2%nat "name" (HStr "anna"))
                 3%nat (HInt 7) in
  snapshot_of 6 (view changed) (HRef 0%nat)
  = Some (book_snapshot scenario_book_changed).
Proof. vm_compute. reflexivity. Qed.

(** * Further properties of the code *)

(** ** The schema along an ancestry *)

(** X1.  In a single-inheritance hierarchy (every class has one base,
    so that its ancestry is a chain) schemas only grow: the schema of every
    shape in the ancestry of a shape is a prefix of that shape's schema, so
    the positional values that build an ancestor are bound to the same
    names by the shape. *)
Theorem schema_prefix_of_ancestor (cls ancestor : pyclass) :
  ancestor ∈ ancestry cls →
  EntryBase._get_all_attributes ancestor
    `prefix_of` EntryBase._get_all_attributes cls.
Proof.
  induction cls as [|name attrs parent IH]; cbn [ancestry].
  - intros ->%list_elem_of_singleton. done.
  - intros [->|Hin]%elem_of_cons; [done|].
    rewrite get_all_attributes_Subclass.
    by apply prefix_app_r, IH.
Qed.

Lemma schema_prefix_of_ancestor_witness :
  PhoneEntry ∈ ancestry PhoneEntryExt2
  ∧ EntryBase._get_all_attributes PhoneEntry
      `prefix_of` EntryBase._get_all_attributes PhoneEntryExt2.
Proof.
  assert (PhoneEntry ∈ ancestry PhoneEntryExt2) as H.
  { simpl. unfold PhoneEntryExt2, PhoneEntryExt. repeat constructor. }
  split; [exact H|]. exact (schema_prefix_of_ancestor PhoneEntryExt2 PhoneEntry H).
Defined.

(** ** Construction *)

(** X2.  A constructed record is an instance of the class that was
    called, and the names bound on it are exactly the schema names and the
    two bookkeeping names: construction introduces no other attribute. *)
Theorem construct_names (cls : pyclass) (args : list pyval)
    (kwargs : gmap string pyval) (inst : instance) :
  EntryBase.construct cls args kwargs = Ok inst →
  inst_class inst = cls
  ∧ dom (inst_dict inst)
    = list_to_set (EntryBase._get_all_attributes cls)
      ∪ {["attributes"; "_can_set_any_attr"]}.
Proof.
  intros Hok. apply construct_Ok_inv in Hok as [-> Hdom].
  split; [done|]. cbn [inst_dict]. by rewrite dom_union_L, Hdom, dom_new_dict.
Qed.

Lemma construct_names_witness :
  EntryBase.construct PhoneEntry [VStr "ana"; VInt 1234] ∅ = Ok ana
  ∧ inst_class ana = PhoneEntry
  ∧ dom (inst_dict ana)
    = list_to_set (EntryBase._get_all_attributes PhoneEntry)
      ∪ {["attributes"; "_can_set_any_attr"]}.
Proof.
  assert (EntryBase.construct PhoneEntry [VStr "ana"; VInt 1234] ∅ = Ok ana)
    as H by reflexivity.
  split; [exact H|].
  exact (construct_names PhoneEntry [VStr "ana"; VInt 1234] ∅ ana H).
Defined.

Lemma py_dict_app (l1 l2 : list (string * pyval)) :
  py_dict (l1 ++ l2) = py_dict l2 ∪ py_dict l1.
Proof.
  induction l2 as [|[k v] l2 IH] using rev_ind.
  - rewrite app_nil_r. unfold py_dict at 2. simpl. by rewrite (left_id_L ∅ _).
  - by rewrite app_assoc, !py_dict_snoc, IH, insert_union_l.
Qed.

(** X3.  Positional and keyword forms are interchangeable: for a schema
    without repeated names, passing the last positional values by keyword
    instead (under the names they would have been bound to) gives the same
    record or the same exception, as long as none of these names is
    [self] or [cls], which cannot be passed by keyword. *)
Theorem construct_positional_as_keyword (cls : pyclass)
    (p1 p2 : list pyval) (kwargs : gmap string pyval) :
  let schema := EntryBase._get_all_attributes cls in
  let moved := py_dict (zip (drop (length p1) schema) p2) in
  NoDup schema →
  (length p1 + length p2 ≤ length schema)%nat →
  dom moved ## dom kwargs →
  moved !! "self" = None → moved !! "cls" = None →
  EntryBase.construct cls (p1 ++ p2) kwargs
  = EntryBase.construct cls p1 (moved ∪ kwargs).
Proof.
  intros schema moved Hnodup Hlen Hdisj Hmself Hmcls.
  destruct (kwargs !! "self") as [v|] eqn:Hself.
  { rewrite !construct_keyword; [done|left..].
    - rewrite lookup_union_r by done. by rewrite Hself.
    - by rewrite Hself. }
  destruct (kwargs !! "cls") as [v|] eqn:Hcls.
  { rewrite !construct_keyword; [done|right..].
    - rewrite lookup_union_r by done. by rewrite Hcls.
    - by rewrite Hcls. }
  assert ((moved ∪ kwargs) !! "self" = None) as Hself'
    by (by apply lookup_union_None).
  assert ((moved ∪ kwargs) !! "cls" = None) as Hcls'
    by (by apply lookup_union_None).
  set (bound := py_dict (zip schema p1)).
  assert (dom bound ## dom moved) as Hbm.
  { unfold bound, moved. rewrite !dom_py_dict, !fst_zip_take.
    rewrite <- (take_drop (length p1) schema) in Hnodup.
    apply NoDup_app in Hnodup as (_ & Hsep & _).
    intros x Hx%elem_of_list_to_set Hy%elem_of_list_to_set.
    apply (Hsep x Hx). by eapply subseteq_take. }
  assert (py_dict (zip schema (p1 ++ p2)) = bound ∪ moved) as Hsplit.
  { rewrite zip_with_app_r, zip_with_take_l.
    rewrite py_dict_app. apply map_union_comm.
    apply map_disjoint_dom. by symmetry. }
  rewrite (construct_unfold _ _ _ Hself Hcls).
  rewrite (construct_unfold _ _ _ Hself' Hcls'). fold schema. cbv zeta.
  rewrite Hsplit. fold bound.
  rewrite decide_False by (rewrite length_app; lia).
  rewrite (decide_False (P := (length schema < length p1)%nat)) by lia.
  rewrite <- (assoc_L (∪) bound moved kwargs).
  assert (dom (bound ∪ moved) ∩ dom kwargs
          = dom bound ∩ dom (moved ∪ kwargs)) as ->.
  { rewrite !dom_union_L. set_solver. }
  done.
Qed.

Lemma construct_positional_as_keyword_witness :
  NoDup (EntryBase._get_all_attributes PhoneEntry)
  ∧ (length [VStr "ana"] + length [VInt 1234]
     ≤ length (EntryBase._get_all_attributes PhoneEntry))%nat
  ∧ dom (py_dict (zip (drop (length [VStr "ana"])
                          (EntryBase._get_all_attributes PhoneEntry))
                      [VInt 1234])) ## dom (∅ : gmap string pyval)
  ∧ py_dict (zip (drop (length [VStr "ana"])
                       (EntryBase._get_all_attributes PhoneEntry))
                 [VInt 1234]) !! "self" = None
  ∧ py_dict (zip (drop (length [VStr "ana"])
                       (EntryBase._get_all_attributes PhoneEntry))
                 [VInt 1234]) !! "cls" = None
  ∧ EntryBase.construct PhoneEntry ([VStr "ana"] ++ [VInt 1234]) ∅
    = EntryBase.construct PhoneEntry [VStr "ana"]
        (py_dict (zip (drop (length [VStr "ana"])
                            (EntryBase._get_all_attributes PhoneEntry))
                      [VInt 1234]) ∪ ∅).
Proof.
  assert (NoDup (EntryBase._get_all_attributes PhoneEntry)) as H1.
  { compute_done. }
  assert (length [VStr "ana"] + length [VInt 1234]
          ≤ length (EntryBase._get_all_attributes PhoneEntry))%nat as H2.
  { simpl. lia. }
  assert (dom (py_dict (zip (drop (length [VStr "ana"])
                          (EntryBase._get_all_attributes PhoneEntry))
                      [VInt 1234])) ## dom (∅ : gmap string pyval)) as H3.
  { compute_done. }
  split; [exact H1|]. split; [exact H2|]. split; [exact H3|].
  split; [reflexivity|]. split; [reflexivity|].
  exact (construct_positional_as_keyword PhoneEntry [VStr "ana"] [VInt 1234]
           ∅ H1 H2 H3 eq_refl eq_refl).
Defined.

(** ** Assignment and lookup *)

Lemma setattr_Ok_inv self name value self' :
  EntryBase.__setattr__ self name value = Ok self' →
  self' = object_setattr self name value.
Proof.
  unfold EntryBase.__setattr__.
  destruct (getattr self "_can_set_any_attr") as [flag|]; [|done].
  cbn [rbind]. destruct (py_truthy flag); [by intros [= <-]|].
  destruct (getattr self "attributes") as [attrs|]; [|done]. cbn [rbind].
  destruct (py_in (VStr name) attrs) as [[|]|]; cbn [rbind]; try done.
  by intros [= <-].
Qed.

(** X4.  An accepted assignment changes one name only: whatever the
    state of the record, after [self.name = value] indexed lookup of every
    other name gives what it gave before (value or exception), as long as
    the assigned name is not [attributes], under which the record keeps
    the schema that [__getitem__] consults, and not of the form [__x__]
    (the interpreter refuses some of these, and [__getattribute__] is what
    [__getitem__] calls). *)
Theorem setattr_frame (self self' : instance) (name other : string)
    (value : pyval) :
  EntryBase.__setattr__ self name value = Ok self' →
  name ≠ "attributes" → special_name name = false → other ≠ name →
  inst_class self' = inst_class self
  ∧ inst_dict self' = <[name := value]> (inst_dict self)
  ∧ EntryBase.__getitem__ self' other = EntryBase.__getitem__ self other.
Proof.
  intros ->%setattr_Ok_inv Hname _ Hother. split; [done|]. split; [done|].
  unfold EntryBase.__getitem__, getattr, object_setattr.
  cbn [inst_dict inst_class].
  rewrite lookup_insert_ne by done. by rewrite (lookup_insert_ne _ name other).
Qed.

Lemma setattr_frame_witness :
  EntryBase.__setattr__ ana "phone" (VInt 1)
  = Ok (object_setattr ana "phone" (VInt 1))
  ∧ "phone" ≠ "attributes" ∧ special_name "phone" = false
  ∧ "name" ≠ "phone"
  ∧ inst_class (object_setattr ana "phone" (VInt 1)) = inst_class ana
  ∧ inst_dict (object_setattr ana "phone" (VInt 1))
    = <["phone" := VInt 1]> (inst_dict ana)
  ∧ EntryBase.__getitem__ (object_setattr ana "phone" (VInt 1)) "name"
    = EntryBase.__getitem__ ana "name".
Proof.
  assert (EntryBase.__setattr__ ana "phone" (VInt 1)
          = Ok (object_setattr ana "phone" (VInt 1))) as H1 by reflexivity.
  assert ("phone" ≠ "attributes") as H2 by done.
  assert ("name" ≠ "phone") as H3 by done.
  split; [exact H1|]. split; [exact H2|]. split; [reflexivity|].
  split; [exact H3|].
  exact (setattr_frame ana _ "phone" "name" (VInt 1) H1 H2 eq_refl H3).
Defined.

(** ** Positions of a collection *)

(** X5.  Positional access succeeds exactly for [-n <= i < n], where [n]
    is the number of entries; every other position, and every position of
    an empty collection, raises [IndexOutOfRange]; and the positions [i]
    and [i - n] name the same entry. *)
Theorem book_getitem_range (self : book) (i : Z) :
  let n := Z.of_nat (length (entries self)) in
  ((∃ entry, BookBase.__getitem__ self i = Ok entry) ↔ - n ≤ i < n)
  ∧ (¬ (- n ≤ i < n) → BookBase.__getitem__ self i = Err IndexOutOfRange)
  ∧ (0 ≤ i < n →
     BookBase.__getitem__ self (i - n) = BookBase.__getitem__ self i).
Proof.
  intros n. unfold BookBase.__getitem__.
  assert (¬ (- n ≤ i < n) → list_getitem (entries self) i = Err IndexOutOfRange)
    as Hout.
  { intros Hi. destruct (decide (n ≤ i)).
    - by apply list_getitem_beyond.
    - apply list_getitem_below. lia. }
  split; [|split; [done|]].
  - split.
    + intros [entry Hentry]. destruct (decide (- n ≤ i < n)) as [|Hi]; [done|].
      rewrite (Hout Hi) in Hentry. done.
    + intros Hi. destruct (decide (0 ≤ i)).
      * destruct (list_getitem_nonneg (entries self) i) as (e & _ & He); eauto with lia.
      * destruct (list_getitem_negative (entries self) (- i)) as (e & _ & He);
          [lia|]. rewrite Z.opp_involutive in He. eauto.
  - intros Hi.
    destruct (list_getitem_nonneg (entries self) i Hi) as (e & He & ->).
    destruct (list_getitem_negative (entries self) (n - i)) as (e' & He' & Hg);
      [lia|].
    replace (- (n - i)) with (i - n) in Hg by lia. rewrite Hg.
    replace (Z.of_nat (length (entries self)) - (n - i)) with i in He' by lia.
    congruence.
Qed.

(** ** Searching, without assumptions on the records *)

Lemma find_loop_app matches es es' kwargs :
  BookBase.find_loop matches (es ++ es') kwargs
  = rbind (BookBase.find_loop matches es kwargs)
          (λ ms, BookBase.find_loop ms es' kwargs).
Proof.
  revert matches. induction es as [|e es IH]; intros matches; [done|].
  cbn [app BookBase.find_loop].
  destruct (BookBase.entry_found e kwargs) as [found|]; [|done].
  cbn [rbind]. apply IH.
Qed.

Lemma find_loop_Ok matches rest kwargs ms :
  BookBase.find_loop matches rest kwargs = Ok ms →
  ms = matches ++ filter (λ e, found_in kwargs e = true) rest
  ∧ ∀ e, e ∈ rest → ∃ found, BookBase.entry_found e kwargs = Ok found.
Proof.
  revert matches. induction rest as [|e rest IH]; intros matches.
  - intros [= <-]. split; [by rewrite app_nil_r|]. by intros e ?%elem_of_nil.
  - cbn [BookBase.find_loop].
    destruct (BookBase.entry_found e kwargs) as [found|] eqn:He; [|done].
    cbn [rbind]. intros [-> Hall]%IH. split.
    + assert (found_in kwargs e = found) as Hf
        by (unfold found_in; by rewrite He).
      destruct found.
      * rewrite filter_cons_True by done. by rewrite <- app_assoc.
      * rewrite filter_cons_False; [done|]. by rewrite Hf.
    + intros e' [->|Hin]%elem_of_cons; eauto.
Qed.

(** X6.  Whatever the stored records and the criteria: when [find]
    returns, the matches are exactly the stored entries on which the
    criteria loop ended with [found] true, in insertion order, so they
    form a subsequence of the entries, and no lookup raised on any
    entry. *)
Theorem find_exact (self : book) (kwargs : list (string * pyval))
    (matches : list instance) :
  BookBase.find self kwargs = Ok matches →
  matches = filter (λ e, found_in kwargs e = true) (entries self)
  ∧ matches `sublist_of` entries self
  ∧ ∀ e, e ∈ entries self →
         ∃ found, BookBase.entry_found e kwargs = Ok found.
Proof.
  intros [_ [-> Hall]%find_loop_Ok]%find_Ok_inv. cbn [app].
  split; [done|]. split; [apply sublist_filter|done].
Qed.

Lemma find_exact_witness :
  BookBase.find two_entries [("name", VStr "ana")] = Ok [ana]
  ∧ [ana] = filter (λ e, found_in [("name", VStr "ana")] e = true)
                   (entries two_entries)
  ∧ [ana] `sublist_of` entries two_entries
  ∧ ∀ e, e ∈ entries two_entries →
         ∃ found, BookBase.entry_found e [("name", VStr "ana")] = Ok found.
Proof.
  assert (BookBase.find two_entries [("name", VStr "ana")] = Ok [ana]) as H
    by reflexivity.
  split; [exact H|].
  exact (find_exact two_entries [("name", VStr "ana")] [ana] H).
Defined.

Lemma entry_matches_Permutation kwargs kwargs' entry :
  kwargs ≡ₚ kwargs' → entry_matches kwargs entry = entry_matches kwargs' entry.
Proof.
  unfold entry_matches. induction 1 as [|kv l l' _ IH|kv1 kv2 l|l l' l'' _ IH1 _ IH2];
    cbn [forallb]; [done|by rewrite IH| |congruence].
  rewrite !andb_assoc. f_equal. apply andb_comm.
Qed.

Lemma entry_matches_app k1 k2 entry :
  entry_matches (k1 ++ k2) entry = entry_matches k1 entry && entry_matches k2 entry.
Proof. unfold entry_matches. apply forallb_app. Qed.

Lemma names_self_Permutation kwargs kwargs' :
  kwargs ≡ₚ kwargs' → BookBase.names_self kwargs = BookBase.names_self kwargs'.
Proof.
  unfold BookBase.names_self.
  induction 1 as [|kv l l' _ IH|kv1 kv2 l|l l' l'' _ IH1 _ IH2];
    cbn [existsb]; [done|by rewrite IH| |congruence].
  rewrite !orb_assoc. f_equal. apply orb_comm.
Qed.

(** X7.  On locked records, and with criteria names that are all in the
    schema, the order in which the keyword criteria are passed does not
    matter. *)
Theorem find_criteria_order (schema : list string) (self : book)
    (kwargs kwargs' : list (string * pyval)) :
  Forall (locked_record schema) (entries self) →
  Forall (λ kv, kv.1 ∈ schema) kwargs →
  kwargs ≡ₚ kwargs' →
  BookBase.find self kwargs = BookBase.find self kwargs'.
Proof.
  intros Hentries Hkwargs Hperm.
  assert (Forall (λ kv, kv.1 ∈ schema) kwargs') as Hkwargs'.
  { by rewrite <- Hperm. }
  unfold BookBase.find. rewrite (names_self_Permutation _ _ Hperm).
  destruct (BookBase.names_self kwargs'); [done|].
  rewrite !(find_loop_in_schema schema) by done.
  f_equal. f_equal. apply list_filter_iff. intros e.
  by rewrite (entry_matches_Permutation _ _ _ Hperm).
Qed.

Lemma find_criteria_order_witness :
  Forall (locked_record ["name"; "phone"]) (entries two_entries)
  ∧ Forall (λ kv : string * pyval, kv.1 ∈ ["name"; "phone"])
           [("name", VStr "ana"); ("phone", VInt 1234)]
  ∧ [("name", VStr "ana"); ("phone", VInt 1234)]
      ≡ₚ [("phone", VInt 1234); ("name", VStr "ana")]
  ∧ BookBase.find two_entries [("name", VStr "ana"); ("phone", VInt 1234)]
    = BookBase.find two_entries [("phone", VInt 1234); ("name", VStr "ana")].
Proof.
  assert (Forall (locked_record ["name"; "phone"]) (entries two_entries)) as H1.
  { repeat constructor; try reflexivity; by exists (VBool false). }
  assert (Forall (λ kv : string * pyval, kv.1 ∈ ["name"; "phone"])
            [("name", VStr "ana"); ("phone", VInt 1234)]) as H2.
  { by repeat constructor. }
  assert ([("name", VStr "ana"); ("phone", VInt 1234)]
            ≡ₚ [("phone", VInt 1234); ("name", VStr "ana")]) as H3.
  { apply Permutation_swap. }
  split; [exact H1|]. split; [exact H2|]. split; [exact H3|].
  exact (find_criteria_order ["name"; "phone"] two_entries _ _ H1 H2 H3).
Defined.

Lemma Forall_filter_keep {A} (P Q : A → Prop) `{∀ x, Decision (Q x)}
    (l : list A) :
  Forall P l → Forall P (filter Q l).
Proof.
  rewrite !Forall_forall. intros HP x [_ Hx]%list_elem_of_filter. auto.
Qed.

(** X8.  Searching refines: on locked records and with criteria names in
    the schema, searching the matches of a first search with further
    criteria gives what one search with all the criteria gives. *)
Theorem find_refines (schema : list string) (self : book)
    (k1 k2 : list (string * pyval)) (matches : list instance) :
  Forall (locked_record schema) (entries self) →
  Forall (λ kv, kv.1 ∈ schema) k1 →
  Forall (λ kv, kv.1 ∈ schema) k2 →
  BookBase.find self k1 = Ok matches →
  BookBase.find (Book (book_class self) (book_attributes self) matches) k2
  = BookBase.find self (k1 ++ k2).
Proof.
  intros Hentries Hk1 Hk2 [Hself Hloop]%find_Ok_inv.
  apply names_self_false in Hself.
  unfold BookBase.find, BookBase.names_self in *. cbn [entries].
  rewrite existsb_app, Hself. cbn [orb].
  destruct (existsb _ k2); [done|]. revert Hloop.
  rewrite (find_loop_in_schema schema) by done. intros [= <-]. cbn [app].
  rewrite !(find_loop_in_schema schema);
    [|done|by apply Forall_app|by apply Forall_filter_keep|done].
  cbn [app]. f_equal. rewrite list_filter_filter.
  apply list_filter_iff. intros e. rewrite entry_matches_app.
  rewrite andb_true_iff. tauto.
Qed.

Lemma find_refines_witness :
  Forall (locked_record ["name"; "phone"]) (entries two_entries)
  ∧ Forall (λ kv : string * pyval, kv.1 ∈ ["name"; "phone"])
           [("name", VStr "ana")]
  ∧ Forall (λ kv : string * pyval, kv.1 ∈ ["name"; "phone"])
           [("phone", VInt 1234)]
  ∧ BookBase.find two_entries [("name", VStr "ana")] = Ok [ana]
  ∧ BookBase.find (Book (book_class two_entries)
                        (book_attributes two_entries) [ana])
                  [("phone", VInt 1234)]
    = BookBase.find two_entries
        ([("name", VStr "ana")] ++ [("phone", VInt 1234)]).
Proof.
  assert (Forall (locked_record ["name"; "phone"]) (entries two_entries)) as H1.
  { repeat constructor; try reflexivity; by exists (VBool false). }
  assert (Forall (λ kv : string * pyval, kv.1 ∈ ["name"; "phone"])
            [("name", VStr "ana")]) as H2 by (by repeat constructor).
  assert (Forall (λ kv : string * pyval, kv.1 ∈ ["name"; "phone"])
            [("phone", VInt 1234)]) as H3 by (by repeat constructor).
  assert (BookBase.find two_entries [("name", VStr "ana")] = Ok [ana]) as H4
    by reflexivity.
  split; [exact H1|]. split; [exact H2|]. split; [exact H3|].
  split; [exact H4|].
  exact (find_refines ["name"; "phone"] two_entries _ _ [ana] H1 H2 H3 H4).
Defined.

(** ** Adding, then reading *)

Lemma add_all_attributes self calls :
  book_attributes (add_all self calls) = book_attributes self.
Proof.
  revert self. unfold add_all.
  induction calls as [|[args kwargs] calls IH]; intros self; [done|].
  cbn [foldl fst snd]. rewrite IH. unfold BookBase.add_contact.
  by destruct (EntryBase.construct _ args kwargs).
Qed.

Lemma omap_length_le {A B} (f : A → option B) (l : list A) :
  (length (omap f l) ≤ length l)%nat.
Proof.
  induction l as [|x l IH]; [done|]. cbn [omap list_omap].
  destruct (f x); simpl; lia.
Qed.

(** X9.  A collection stays homogeneous: after any run of [add_contact]
    calls on a new collection, its class and the schema it reports are
    those of its creation, every stored entry is an instance of the bound
    record shape whose names are that shape's schema names and the two
    bookkeeping names, and there are at most as many entries as calls. *)
Theorem add_all_homogeneous (cls : bookclass)
    (calls : list (list pyval * gmap string pyval)) :
  let self := add_all (BookBase.create cls) calls in
  let schema := EntryBase._get_all_attributes (ENTRY_TYPE cls) in
  book_class self = cls
  ∧ book_attributes self = schema
  ∧ Forall (λ e, inst_class e = ENTRY_TYPE cls
                 ∧ dom (inst_dict e)
                   = list_to_set schema ∪ {["attributes"; "_can_set_any_attr"]})
           (entries self)
  ∧ (length (entries self) ≤ length calls)%nat.
Proof.
  intros self schema. subst self.
  destruct (add_all_entries (BookBase.create cls) calls) as [-> ->].
  rewrite add_all_attributes. cbn [BookBase.create book_class
    book_attributes entries app].
  split; [done|]. split; [done|]. split.
  - apply Forall_forall. intros e He. unfold constructed in He.
    apply list_elem_of_omap in He as ([args kwargs] & _ & Hc).
    cbn [fst snd] in Hc.
    destruct (EntryBase.construct _ args kwargs) as [e'|] eqn:Hok; [|done].
    injection Hc as ->. apply construct_Ok_inv in Hok as [-> Hdom].
    split; [done|]. cbn [inst_dict].
    by rewrite dom_union_L, Hdom, dom_new_dict.
  - unfold constructed. apply omap_length_le.
Qed.

(** X10.  After a successful [add_contact] the new record is the last
    entry, reachable at position [-1] and at position [n] (the former
    entry count), and every earlier position gives what it gave before. *)
Theorem add_contact_then_getitem (self : book) (args : list pyval)
    (kwargs : gmap string pyval) (entry : instance) (i : Z) :
  let after := (BookBase.add_contact self args kwargs).1 in
  let n := Z.of_nat (length (entries self)) in
  EntryBase.construct (ENTRY_TYPE (book_class self)) args kwargs = Ok entry →
  BookBase.__getitem__ after (-1) = Ok entry
  ∧ BookBase.__getitem__ after n = Ok entry
  ∧ (0 ≤ i < n →
     BookBase.__getitem__ after i = BookBase.__getitem__ self i).
Proof.
  intros after n Hok. subst after. unfold BookBase.add_contact.
  rewrite Hok. cbn [fst]. unfold BookBase.__getitem__. cbn [entries].
  assert (length (entries self ++ [entry]) = S (length (entries self)))
    as Hlen by (rewrite length_app; simpl; lia).
  split; [|split].
  - destruct (list_getitem_negative (entries self ++ [entry]) 1)
      as (e & He & Heq); [lia|].
    change (- (1)) with (Z.neg 1) in Heq. rewrite Heq. clear Heq. rewrite Hlen in He.
    replace (Z.to_nat (Z.of_nat (S (length (entries self))) - 1))
      with (length (entries self)) in He by lia.
    rewrite list_lookup_middle in He by done. congruence.
  - destruct (list_getitem_nonneg (entries self ++ [entry]) n)
      as (e & He & ->); [lia|].
    subst n. rewrite Nat2Z.id, list_lookup_middle in He by done. congruence.
  - intros Hi.
    destruct (list_getitem_nonneg (entries self ++ [entry]) i)
      as (e & He & ->); [lia|].
    destruct (list_getitem_nonneg (entries self) i Hi) as (e' & He' & ->).
    rewrite lookup_app_l in He by lia. congruence.
Qed.

Lemma add_contact_then_getitem_witness :
  EntryBase.construct (ENTRY_TYPE (book_class two_entries))
    [VStr "ana"; VInt 1234] ∅ = Ok ana
  ∧ let after :=
      (BookBase.add_contact two_entries [VStr "ana"; VInt 1234] ∅).1 in
    let n := Z.of_nat (length (entries two_entries)) in
    BookBase.__getitem__ after (-1) = Ok ana
    ∧ BookBase.__getitem__ after n = Ok ana
    ∧ (0 ≤ 1 < n →
       BookBase.__getitem__ after 1 = BookBase.__getitem__ two_entries 1).
Proof.
  assert (EntryBase.construct (ENTRY_TYPE (book_class two_entries))
            [VStr "ana"; VInt 1234] ∅ = Ok ana) as H by reflexivity.
  split; [exact H|].
  exact (add_contact_then_getitem two_entries [VStr "ana"; VInt 1234] ∅ ana 1 H).
Defined.

(** X11.  Searching after a successful [add_contact] is searching
    before it, followed by the criteria loop on the new record alone:
    earlier matches stay, in order, and the new record is appended to them
    exactly if it matches. *)
Theorem add_contact_then_find (self : book) (args : list pyval)
    (kwargs : gmap string pyval) (entry : instance)
    (criteria : list (string * pyval)) :
  EntryBase.construct (ENTRY_TYPE (book_class self)) args kwargs = Ok entry →
  BookBase.find (BookBase.add_contact self args kwargs).1 criteria
  = rbind (BookBase.find self criteria) (λ matches,
      rbind (BookBase.entry_found entry criteria) (λ found,
        Ok (if found : bool then matches ++ [entry] else matches))).
Proof.
  intros Hok. unfold BookBase.add_contact. rewrite Hok. cbn [fst].
  unfold BookBase.find. cbn [entries].
  destruct (BookBase.names_self criteria); [done|]. rewrite find_loop_app.
  destruct (BookBase.find_loop [] (entries self) criteria) as [ms|]; [|done].
  cbn [rbind BookBase.find_loop].
  by destruct (BookBase.entry_found entry criteria).
Qed.

Lemma add_contact_then_find_witness :
  EntryBase.construct (ENTRY_TYPE (book_class two_entries))
    [VStr "ana"; VInt 1234] ∅ = Ok ana
  ∧ BookBase.find
      (BookBase.add_contact two_entries [VStr "ana"; VInt 1234] ∅).1
      [("name", VStr "ana")]
    = rbind (BookBase.find two_entries [("name", VStr "ana")]) (λ matches,
        rbind (BookBase.entry_found ana [("name", VStr "ana")]) (λ found,
          Ok (if found : bool then matches ++ [ana] else matches))).
Proof.
  assert (EntryBase.construct (ENTRY_TYPE (book_class two_entries))
            [VStr "ana"; VInt 1234] ∅ = Ok ana) as H by reflexivity.
  split; [exact H|].
  exact (add_contact_then_find two_entries [VStr "ana"; VInt 1234] ∅ ana
           [("name", VStr "ana")] H).
Defined.

(** ** [create_copy] on any store *)

Lemma hval_ind_nested (P : hval → Prop) :
  P HNone → (∀ b, P (HBool b)) → (∀ z, P (HInt z)) → (∀ s, P (HStr s)) →
  (∀ items, Forall P items → P (HTuple items)) → (∀ l, P (HRef l)) →
  ∀ v, P v.
Proof.
  intros HN HB HI HS HT HR. fix IH 1.
  intros [|b|z|s|items|l];
    [exact HN|exact (HB b)|exact (HI z)|exact (HS s)| |exact (HR l)].
  apply HT. induction items as [|x items IHitems].
  - apply Forall_nil_2.
  - apply Forall_cons_2; [apply IH|exact IHitems].
Qed.

Lemma rename_mono memo memo' v w :
  memo ⊆ memo' → rename memo v = Some w → rename memo' v = Some w.
Proof.
  intros Hsub. revert w.
  induction v as [| | | |items IH|l] using hval_ind_nested; intros w;
    cbn [rename]; try done.
  - intros (ys & Hys & ->)%fmap_Some. apply fmap_Some. exists ys.
    split; [|done]. apply mapM_Some. apply mapM_Some in Hys.
    revert IH. induction Hys as [|x y xs ys Hx _ IHys]; intros IH; [done|].
    apply Forall_cons in IH as [IHx IHxs]. constructor; auto.
  - intros (l' & Hl & ->)%fmap_Some.
    by rewrite (lookup_weaken _ _ _ _ Hl Hsub).
Qed.

Lemma mapM_rename_mono memo memo' items ys :
  memo ⊆ memo' →
  mapM (rename memo) items = Some ys → mapM (rename memo') items = Some ys.
Proof.
  intros Hsub. rewrite !mapM_Some. intros H. eapply Forall2_impl; [done|].
  intros x y. by apply rename_mono.
Qed.

Lemma copy_of_mono memo memo' o o' :
  memo ⊆ memo' → copy_of memo o o' → copy_of memo' o o'.
Proof.
  intros Hsub. destruct o as [items|k d], o' as [ys|k' d']; cbn [copy_of];
    try done.
  - by apply mapM_rename_mono.
  - intros [-> Hd]. split; [done|]. intros name. specialize (Hd name).
    destruct (d !! name) as [v|]; [|done].
    destruct Hd as (w & Hw & Hname). exists w.
    split; [by eapply rename_mono|done].
Qed.

Lemma copy_items_step (copy : hval → list obj * gmap nat nat
      → option (hval * (list obj * gmap nat nat))) items st ys st' :
  (∀ x st y st', copy x st = Some (y, st') → copy_step x st y st') →
  copy_items copy items st = Some (ys, st') →
  (length st.1 ≤ length st'.1)%nat
  ∧ (∀ m, (m < length st.1)%nat → st'.1 !! m = st.1 !! m)
  ∧ st.2 ⊆ st'.2
  ∧ mapM (rename st'.2) items = Some ys.
Proof.
  intros Hcopy. revert st ys st'.
  induction items as [|x items IH]; intros st ys st'; cbn [copy_items].
  - intros [= <- <-]. done.
  - destruct (copy x st) as [[y st1]|] eqn:Hx; [|done].
    destruct (copy_items copy items st1) as [[ys' st2]|] eqn:Hitems; [|done].
    intros [= <- <-].
    destruct (Hcopy _ _ _ _ Hx) as (Hlen1 & Hfr1 & Hsub1 & Hy).
    destruct (IH _ _ _ Hitems) as (Hlen2 & Hfr2 & Hsub2 & Hys).
    split; [lia|]. split; [|split].
    + intros m Hm. rewrite Hfr2 by lia. by apply Hfr1.
    + by etrans.
    + apply mapM_Some. constructor; [by eapply rename_mono|by apply mapM_Some].
Qed.

Lemma deepcopy_step n x st y st' :
  deepcopy n x st = Some (y, st') → copy_step x st y st'.
Proof.
  revert x st y st'. induction n as [|n IH]; intros x st y st'; [done|].
  destruct x as [| | | |items|l]; cbn [deepcopy];
    try (intros [= <- <-]; done).
  - destruct (copy_items _ items st) as [[ys st1]|] eqn:Hitems; [|done].
    intros [= <- <-].
    destruct (copy_items_step _ _ _ _ _ IH Hitems) as (? & ? & ? & Hys).
    repeat split; try done. cbn [rename]. by rewrite Hys.
  - destruct (st.2 !! l) as [l'|] eqn:Hmemo.
    { intros [= <- <-]. repeat split; try done. cbn [rename].
      by rewrite Hmemo. }
    destruct (st.1 !! l) as [[items|k d]|] eqn:Hl; [| |done].
    + destruct (copy_items _ items _) as [[ys st2]|] eqn:Hitems; [|done].
      intros [= <- <-].
      destruct (copy_items_step _ _ _ _ _ IH Hitems)
        as (Hlen & Hfr & Hsub & Hys). cbn [fst snd] in *.
      rewrite length_app in Hlen. cbn [length] in Hlen.
      unfold copy_step. cbn [fst snd].
      split; [rewrite length_insert; lia|]. split; [|split].
      * intros m Hm. rewrite list_lookup_insert_ne by lia.
        rewrite Hfr by (rewrite length_app; simpl; lia).
        by rewrite lookup_app_l.
      * etrans; [|exact Hsub]. by apply insert_subseteq.
      * cbn [rename].
        rewrite (lookup_weaken _ _ l (length st.1) (lookup_insert_eq _ _ _) Hsub).
        done.
    + destruct (hooked d); [done|].
      destruct (copy_items _ _ _) as [[ys st2]|] eqn:Hitems; [|done].
      intros [= <- <-].
      destruct (copy_items_step _ _ _ _ _ IH Hitems)
        as (Hlen & Hfr & Hsub & Hys). cbn [fst snd] in *.
      rewrite length_app in Hlen. cbn [length] in Hlen.
      unfold copy_step. cbn [fst snd].
      split; [rewrite length_insert; lia|]. split; [|split].
      * intros m Hm. rewrite list_lookup_insert_ne by lia.
        rewrite Hfr by (rewrite length_app; simpl; lia).
        by rewrite lookup_app_l.
      * etrans; [|exact Hsub]. by apply insert_subseteq.
      * cbn [rename].
        rewrite (lookup_weaken _ _ l (length st.1) (lookup_insert_eq _ _ _) Hsub).
        done.
Qed.

(** X12.  [create_copy] never touches what exists: whenever it returns,
    on any store at all, the copy is the first object allocated by the
    call, the store has only grown, and every object that existed before
    the call is exactly as it was. *)
Theorem create_copy_frame (fuel : nat) (h : list obj) (self self' : nat)
    (h' : list obj) :
  BookStore.create_copy fuel h self = Some (self', h') →
  self' = length h
  ∧ (self < length h)%nat
  ∧ (length h < length h')%nat
  ∧ ∀ m, (m < length h)%nat → h' !! m = h !! m.
Proof.
  unfold BookStore.create_copy.
  destruct (deepcopy fuel (HRef self) (h, ∅)) as [[y [h1 memo]]|] eqn:Hcopy;
    [|done].
  pose proof (deepcopy_ref_fresh _ _ _ _ _ (lookup_empty self) Hcopy) as ->.
  cbn [fst]. intros [= <- <-].
  destruct (deepcopy_step _ _ _ _ _ Hcopy) as (Hlen & Hfr & _ & _).
  cbn [fst snd] in *. split; [done|].
  destruct fuel as [|fuel]; [done|]. cbn [deepcopy fst snd] in Hcopy.
  rewrite lookup_empty in Hcopy.
  destruct (h !! self) as [o|] eqn:Hself; [|done].
  split; [by eapply lookup_lt_Some|]. split; [|done].
  destruct o as [items|k d].
  - destruct (copy_items _ _ _) as [[ys st2]|] eqn:Hitems; [|done].
    injection Hcopy as <- _.
    destruct (copy_items_step _ _ _ _ _ (deepcopy_step fuel) Hitems)
      as (Hlen2 & _). cbn [fst] in Hlen2.
    rewrite length_app in Hlen2. rewrite length_insert. simpl in Hlen2. lia.
  - destruct (hooked d); [done|].
    destruct (copy_items _ _ _) as [[ys st2]|] eqn:Hitems; [|done].
    injection Hcopy as <- _.
    destruct (copy_items_step _ _ _ _ _ (deepcopy_step fuel) Hitems)
      as (Hlen2 & _). cbn [fst] in Hlen2.
    rewrite length_app in Hlen2. rewrite length_insert. simpl in Hlen2. lia.
Qed.

Lemma create_copy_frame_witness :
  ∃ self' h',
    BookStore.create_copy 6 shared_heap 0 = Some (self', h')
    ∧ self' = length shared_heap
    ∧ (0 < length shared_heap)%nat
    ∧ (length shared_heap < length h')%nat
    ∧ ∀ m, (m < length shared_heap)%nat → h' !! m = shared_heap !! m.
Proof.
  destruct (BookStore.create_copy 6 shared_heap 0) as [[self' h']|] eqn:H;
    [|vm_compute in H; discriminate].
  exists self', h'. split; [reflexivity|].
  exact (create_copy_frame 6 shared_heap 0 self' h' H).
Defined.

(** *** Sharing and cycles *)

Lemma list_to_map_zip_Forall2 {A B} (R : A → B → Prop)
    (kvs : list (string * A)) (ys : list B) (name : string) :
  Forall2 R kvs.*2 ys →
  match (list_to_map kvs : gmap string A) !! name with
  | Some v => ∃ w, R v w
      ∧ (list_to_map (zip kvs.*1 ys) : gmap string B) !! name = Some w
  | None => (list_to_map (zip kvs.*1 ys) : gmap string B) !! name = None
  end.
Proof.
  revert ys. induction kvs as [|[key v] kvs IH]; intros ys Hys.
  - by inversion Hys.
  - cbn [fmap list_fmap snd] in Hys. inversion Hys as [|? w ? ys' Hw Hys']; subst.
    cbn [fmap list_fmap fst zip zip_with list_to_map foldr].
    destruct (decide (key = name)) as [->|Hne].
    + rewrite !lookup_insert_eq. by exists w.
    + rewrite !lookup_insert_ne by done. by apply IH.
Qed.

Lemma forallb_refs_Forall n items :
  forallb (refs_below n) items = true
  ↔ Forall (λ v, refs_below n v = true) items.
Proof.
  rewrite forallb_forall, Forall_forall. split; intros H x Hx; apply H.
  - by apply list_elem_of_In.
  - by apply list_elem_of_In.
Qed.

Section sharing.
Context (h0 : list obj) (Hclosed : closed h0 = true).

Lemma closed_lookup l o :
  h0 !! l = Some o → obj_refs_below (length h0) o = true.
Proof.
  intros Hl. unfold closed in Hclosed.
  rewrite forallb_forall in Hclosed. apply Hclosed.
  apply list_elem_of_In. by eapply list_elem_of_lookup_2.
Qed.

(** Entering an object: its copy is allocated and entered in the memo
    before its contents are copied. *)
Lemma copy_shape_enter pend st l (placeholder : obj) :
  copy_shape h0 pend st → (l < length h0)%nat → st.2 !! l = None →
  copy_shape h0 (pend ∪ {[length st.1]})
    (st.1 ++ [placeholder], <[l := length st.1]> st.2).
Proof.
  intros (H1 & H2 & H3 & H4 & H5) Hl Hmemo.
  unfold copy_shape. cbn [fst snd]. rewrite length_app. cbn [length].
  split; [|split; [|split; [|split]]].
  - intros m Hm. rewrite lookup_app_l by lia. by apply H1.
  - lia.
  - intros la la'. rewrite lookup_insert_Some.
    intros [[<- <-]|[_ Hla]]; [lia|]. apply H3 in Hla. lia.
  - intros l1 l2 l'. rewrite !lookup_insert_Some.
    intros [[<- <-]|[? Hl1]] [[<- Heq]|[? Hl2]]; try done.
    + apply H3 in Hl2. lia.
    + apply H3 in Hl1. lia.
    + by eapply H4.
  - intros la la'. rewrite lookup_insert_Some.
    intros [[<- <-]|[Hne Hla]]; [left; set_solver|].
    destruct (H5 la la' Hla) as [?|(w & w' & Hw & Hw' & Hcopy)];
      [left; set_solver|].
    right. exists w, w'. split; [done|]. split.
    + apply H3 in Hla. rewrite lookup_app_l by lia. done.
    + eapply copy_of_mono; [|done]. by apply insert_subseteq.
Qed.

(** Leaving an object: its copy receives its contents. *)
Lemma copy_shape_leave pend st2 l l' o o' :
  copy_shape h0 (pend ∪ {[l']}) st2 →
  st2.2 !! l = Some l' → h0 !! l = Some o → copy_of st2.2 o o' →
  copy_shape h0 pend (<[l' := o']> st2.1, st2.2).
Proof.
  intros (H1 & H2 & H3 & H4 & H5) Hl Ho Hcopy.
  pose proof (H3 _ _ Hl) as (? & ? & ?).
  unfold copy_shape. cbn [fst snd]. rewrite length_insert.
  split; [|split; [|split; [|split]]]; try done.
  - intros m Hm. rewrite list_lookup_insert_ne by lia. by apply H1.
  - intros la la' Hla. destruct (decide (la' = l')) as [->|Hne].
    + assert (la = l) as -> by by eapply H4.
      right. exists o, o'. split; [done|]. split; [|done].
      by rewrite list_lookup_insert_eq.
    + destruct (H5 la la' Hla) as [?|(w & w' & Hw & Hw' & Hcopy')];
        [left; set_solver|].
      right. exists w, w'. split; [done|]. split; [|done].
      by rewrite list_lookup_insert_ne.
Qed.

Lemma copy_items_shape n items st ys st' pend :
  shape_kept h0 n →
  copy_items (deepcopy n) items st = Some (ys, st') →
  Forall (λ v, refs_below (length h0) v = true) items →
  copy_shape h0 pend st → copy_shape h0 pend st'.
Proof.
  intros IH. revert st ys st'.
  induction items as [|x items IHitems]; intros st ys st'; cbn [copy_items].
  - by intros [= <- <-].
  - destruct (deepcopy n x st) as [[y st1]|] eqn:Hx; [|done].
    destruct (copy_items _ items st1) as [[ys' st2]|] eqn:Hitems; [|done].
    intros [= <- <-] [Hrx Hritems]%Forall_cons Hshape.
    eapply IHitems; [done|done|]. by eapply IH.
Qed.

Lemma deepcopy_shape n : shape_kept h0 n.
Proof.
  induction n as [|n IH]; intros x st y st' pend; [done|].
  destruct x as [| | | |items|l]; cbn [deepcopy refs_below];
    try (intros [= <- <-]; done).
  - destruct (copy_items _ items st) as [[ys st1]|] eqn:Hitems; [|done].
    intros [= <- <-] Hr%forallb_refs_Forall Hshape.
    by eapply copy_items_shape.
  - destruct (st.2 !! l) as [l'|] eqn:Hmemo; [by intros [= <- <-]|].
    intros Hcopy Hl%bool_decide_eq_true Hshape.
    pose proof Hshape as (H1 & _). rewrite H1 in Hcopy by done.
    destruct (h0 !! l) as [[items|k d]|] eqn:Ho; [| |done].
    + destruct (copy_items _ items _) as [[ys st2]|] eqn:Hitems; [|done].
      injection Hcopy as <- <-.
      pose proof (closed_lookup _ _ Ho) as Hr. cbn [obj_refs_below] in Hr.
      apply forallb_refs_Forall in Hr.
      pose proof (copy_shape_enter pend st l (OList [])
                    Hshape Hl Hmemo) as Hshape1.
      pose proof (copy_items_shape _ _ _ _ _ _ IH Hitems Hr Hshape1)
        as Hshape2.
      destruct (copy_items_step _ _ _ _ _ (deepcopy_step n) Hitems)
        as (_ & _ & Hsub & Hys). cbn [fst snd] in Hsub.
      eapply copy_shape_leave; [exact Hshape2| |exact Ho|exact Hys].
      eapply lookup_weaken; [|exact Hsub]. apply lookup_insert_eq.
    + destruct (hooked d); [done|].
      destruct (copy_items _ _ _) as [[ys st2]|] eqn:Hitems; [|done].
      injection Hcopy as <- <-.
      pose proof (closed_lookup _ _ Ho) as Hr. cbn [obj_refs_below] in Hr.
      apply forallb_refs_Forall in Hr.
      pose proof (copy_shape_enter pend st l (OInst k (new_object k)) Hshape Hl Hmemo) as Hshape1.
      pose proof (copy_items_shape _ _ _ _ _ _ IH Hitems Hr Hshape1)
        as Hshape2.
      destruct (copy_items_step _ _ _ _ _ (deepcopy_step n) Hitems)
        as (_ & _ & Hsub & Hys). cbn [fst snd] in Hsub.
      eapply copy_shape_leave; [exact Hshape2| |exact Ho|].
      { eapply lookup_weaken; [|exact Hsub]. apply lookup_insert_eq. }
      cbn [copy_of]. split; [done|]. intros name.
      apply mapM_Some in Hys.
      pose proof (list_to_map_zip_Forall2 _ (map_to_list d) ys name Hys)
        as Hname.
      rewrite list_to_map_to_list in Hname.
      destruct (d !! name) as [v|].
      * destruct Hname as (w & Hw & Hzip). exists w. split; [done|].
        by rewrite lookup_union, Hzip, union_Some_l.
      * by rewrite lookup_union, Hname, (left_id_L None _).
Qed.

End sharing.

(** X13.  [create_copy] keeps the shape of the object graph, sharing
    and cycles included.  On a store without dangling references,
    whenever it returns there is a memo that maps the collection to its
    copy and original objects to objects allocated by the call, one to one;
    the copy of each object is that object with every reference replaced
    through the memo (an instance also keeps its class).  So two references
    to one object in the original are two references to one object in the
    copy, and a reference back to the collection becomes a reference back to
    the copy. *)
Theorem create_copy_keeps_sharing (fuel : nat) (h : list obj)
    (self self' : nat) (h' : list obj) :
  closed h = true →
  BookStore.create_copy fuel h self = Some (self', h') →
  ∃ memo : gmap nat nat,
    memo !! self = Some self'
    ∧ (∀ l l', memo !! l = Some l' →
         (l < length h)%nat ∧ (length h ≤ l')%nat ∧ (l' < length h')%nat)
    ∧ (∀ l1 l2 l', memo !! l1 = Some l' → memo !! l2 = Some l' → l1 = l2)
    ∧ (∀ l l', memo !! l = Some l' →
         ∃ o o', h !! l = Some o ∧ h' !! l' = Some o' ∧ copy_of memo o o').
Proof.
  intros Hclosed. unfold BookStore.create_copy.
  destruct (deepcopy fuel (HRef self) (h, ∅)) as [[y [h1 memo]]|] eqn:Hcopy;
    [|done].
  destruct y as [| | | | |l1]; try done. intros [= <- <-].
  assert (copy_shape h ∅ (h, ∅)) as Hshape.
  { unfold copy_shape. cbn [fst snd]. split; [done|]. split; [done|].
    split; [|split]; intros *; by rewrite lookup_empty. }
  assert (refs_below (length h) (HRef self) = true) as Hself.
  { cbn [refs_below]. apply bool_decide_eq_true.
    destruct fuel as [|fuel]; [done|]. cbn [deepcopy fst snd] in Hcopy.
    rewrite lookup_empty in Hcopy.
    destruct (h !! self) eqn:Hl; [|done]. by eapply lookup_lt_Some. }
  destruct (deepcopy_shape h Hclosed fuel _ _ _ _ ∅ Hcopy Hself Hshape)
    as (_ & _ & H3 & H4 & H5).
  destruct (deepcopy_step _ _ _ _ _ Hcopy) as (_ & _ & _ & Hy).
  cbn [fst snd rename] in *. exists memo. split; [|split; [|split]].
  - by destruct (memo !! self) as [l'|]; simplify_eq/=.
  - done.
  - done.
  - intros l l' Hl. destruct (H5 l l' Hl) as [?|?]; [set_solver|done].
Qed.

Lemma create_copy_keeps_sharing_witness :
  closed shared_heap = true
  ∧ ∃ self' h',
      BookStore.create_copy 6 shared_heap 0 = Some (self', h')
      ∧ ∃ memo : gmap nat nat,
          memo !! 0%nat = Some self'
          ∧ (∀ l l', memo !! l = Some l' →
               (l < length shared_heap)%nat ∧ (length shared_heap ≤ l')%nat
               ∧ (l' < length h')%nat)
          ∧ (∀ l1 l2 l', memo !! l1 = Some l' → memo !! l2 = Some l' → l1 = l2)
          ∧ (∀ l l', memo !! l = Some l' →
               ∃ o o', shared_heap !! l = Some o ∧ h' !! l' = Some o'
                       ∧ copy_of memo o o').
Proof.
  assert (closed shared_heap = true) as Hclosed by (vm_compute; reflexivity).
  split; [exact Hclosed|].
  destruct (BookStore.create_copy 6 shared_heap 0) as [[self' h']|] eqn:H;
    [|vm_compute in H; discriminate].
  exists self', h'. split; [reflexivity|].
  exact (create_copy_keeps_sharing 6 shared_heap 0 self' h' Hclosed H).
Defined.

(** *** Termination *)

Section termination.
Context (h0 : list obj) (Hclosed : closed h0 = true).
Context (Hplain : plain_store h0 = true).

Lemma memo_size pend st :
  copy_shape h0 pend st → (size st.2 ≤ length h0)%nat.
Proof.
  intros (_ & _ & H3 & _).
  rewrite <- (size_dom (D:=gset nat)).
  rewrite <- (size_set_seq (C:=gset nat) 0 (length h0)).
  apply subseteq_size. intros l [l' Hl]%elem_of_dom.
  apply elem_of_set_seq. apply H3 in Hl. lia.
Qed.

Lemma obj_depth_lookup l o :
  h0 !! l = Some o → (obj_depth o ≤ heap_depth h0)%nat.
Proof.
  intros Hl. unfold heap_depth. apply max_list_elem_of_le.
  apply list_elem_of_fmap. exists o. split; [done|].
  by eapply list_elem_of_lookup_2.
Qed.

Lemma copy_items_returns n items st pend (bound : nat) :
  returns_within h0 n →
  copy_shape h0 pend st →
  Forall (λ v, refs_below (length h0) v = true) items →
  Forall (λ v, (tuple_depth v ≤ bound)%nat) items →
  (bound + (length h0 - size st.2) * S (heap_depth h0) < n)%nat →
  ∃ ys st', copy_items (deepcopy n) items st = Some (ys, st').
Proof.
  intros IH. revert st.
  induction items as [|x items IHitems]; intros st Hshape Hrefs Hdepth Hn;
    cbn [copy_items]; [by eauto|].
  apply Forall_cons in Hrefs as [Hrx Hritems].
  apply Forall_cons in Hdepth as [Hdx Hditems].
  destruct (IH x st pend Hshape Hrx) as (y & st1 & Hx).
  { unfold copy_depth. lia. }
  rewrite Hx.
  pose proof (deepcopy_shape h0 Hclosed n _ _ _ _ pend Hx Hrx Hshape)
    as Hshape1.
  destruct (deepcopy_step _ _ _ _ _ Hx) as (_ & _ & Hsub & _).
  apply map_subseteq_size in Hsub.
  destruct (IHitems st1 Hshape1 Hritems Hditems) as (ys & st2 & Hitems).
  { assert ((length h0 - size st1.2) * S (heap_depth h0)
            ≤ (length h0 - size st.2) * S (heap_depth h0))%nat by nia.
    lia. }
  rewrite Hitems. by eauto.
Qed.

Lemma tuple_depth_items items :
  Forall (λ v, (tuple_depth v ≤ max_list (tuple_depth <$> items))%nat) items.
Proof.
  apply Forall_forall. intros v Hv. apply max_list_elem_of_le.
  apply list_elem_of_fmap. by exists v.
Qed.

Lemma deepcopy_returns n : returns_within h0 n.
Proof.
  induction n as [|n IH]; intros x st pend Hshape Hrefs Hn; [lia|].
  unfold copy_depth in Hn.
  destruct x as [| | | |items|l]; cbn [deepcopy]; try by eauto.
  - cbn [refs_below tuple_depth] in Hrefs, Hn.
    apply forallb_refs_Forall in Hrefs.
    destruct (copy_items_returns n items st pend
                (max_list (tuple_depth <$> items)) IH Hshape Hrefs
                (tuple_depth_items items)) as (ys & st' & ->); [lia|].
    by eauto.
  - destruct (st.2 !! l) as [l'|] eqn:Hmemo; [by eauto|].
    cbn [refs_below tuple_depth] in Hrefs, Hn.
    apply bool_decide_eq_true in Hrefs.
    pose proof Hshape as (H1 & _). rewrite H1 by done.
    destruct (lookup_lt_is_Some_2 h0 l Hrefs) as [o Ho]. rewrite Ho.
    pose proof (closed_lookup h0 Hclosed _ _ Ho) as Hr.
    pose proof (obj_depth_lookup _ _ Ho) as Hd.
    assert (∀ placeholder : obj,
              copy_shape h0 (pend ∪ {[length st.1]})
                (st.1 ++ [placeholder], <[l := length st.1]> st.2)
              ∧ (heap_depth h0
                 + (length h0 - size (<[l := length st.1]> st.2))
                   * S (heap_depth h0) < n)%nat) as Henter.
    { intros placeholder.
      pose proof (copy_shape_enter h0 Hclosed pend st l placeholder Hshape Hrefs Hmemo)
        as Hshape1.
      split; [done|]. apply memo_size in Hshape1. cbn [snd] in Hshape1.
      rewrite map_size_insert_None in Hshape1 |- * by done. nia. }
    destruct o as [items|k d]; cbn [obj_refs_below obj_depth] in Hr, Hd;
      apply forallb_refs_Forall in Hr.
    + destruct (Henter (OList [])) as [Hshape1 Hn1].
      destruct (copy_items_returns n items _ _ (heap_depth h0) IH Hshape1 Hr)
        as (ys & st2 & ->); [|done|by eauto].
      eapply Forall_impl; [apply tuple_depth_items|]. cbn beta. lia.
    + rewrite (plain_store_lookup _ _ _ _ Hplain Ho).
      destruct (Henter (OInst k (new_object k))) as [Hshape1 Hn1].
      destruct (copy_items_returns n (map_to_list d).*2 _ _ (heap_depth h0)
                  IH Hshape1 Hr) as (ys & st2 & ->); [|done|by eauto].
      eapply Forall_impl; [apply tuple_depth_items|]. cbn beta. lia.
Qed.

End termination.

(** X14.  [create_copy] returns on every store without dangling
    references none of whose instances binds a name of the form [__x__],
    cyclic stores included: the memo ends every cycle, so a recursion
    depth of one level per object of the store, and one more per level of
    tuple nesting inside each, is enough. *)
Theorem create_copy_returns (fuel : nat) (h : list obj) (self : nat) :
  closed h = true → plain_store h = true → (self < length h)%nat →
  (length h * S (heap_depth h) < fuel)%nat →
  ∃ self' h', BookStore.create_copy fuel h self = Some (self', h').
Proof.
  intros Hclosed Hplain Hself Hfuel.
  assert (copy_shape h ∅ (h, ∅)) as Hshape.
  { unfold copy_shape. cbn [fst snd]. split; [done|]. split; [done|].
    split; [|split]; intros *; by rewrite lookup_empty. }
  destruct (deepcopy_returns h Hclosed Hplain fuel (HRef self) (h, ∅) ∅
              Hshape)
    as (y & [h' memo] & Hcopy).
  { cbn [refs_below]. by apply bool_decide_eq_true. }
  { unfold copy_depth. cbn [tuple_depth snd]. rewrite map_size_empty. lia. }
  pose proof (deepcopy_ref_fresh _ _ _ _ _ (lookup_empty self) Hcopy) as ->.
  exists (length h), h'. unfold BookStore.create_copy. by rewrite Hcopy.
Qed.

Lemma create_copy_returns_witness :
  closed shared_heap = true ∧ plain_store shared_heap = true
  ∧ (0 < length shared_heap)%nat
  ∧ (length shared_heap * S (heap_depth shared_heap) < 11)%nat
  ∧ ∃ self' h', BookStore.create_copy 11 shared_heap 0 = Some (self', h').
Proof.
  assert (closed shared_heap = true) as Hclosed by (vm_compute; reflexivity).
  assert (0 < length shared_heap)%nat as Hself by (simpl; lia).
  assert (length shared_heap * S (heap_depth shared_heap) < 11)%nat as Hfuel
    by (vm_compute; lia).
  assert (plain_store shared_heap = true) as Hplain
    by (vm_compute; reflexivity).
  split; [exact Hclosed|]. split; [exact Hplain|]. split; [exact Hself|].
  split; [exact Hfuel|].
  exact (create_copy_returns 11 shared_heap 0 Hclosed Hplain Hself Hfuel).
Defined.

(** ** Display *)

Lemma string_length_app (s1 s2 : string) :
  String.length (s1 +:+ s2) = (String.length s1 + String.length s2)%nat.
Proof.
  induction s1 as [|c s1 IH]; [done|].
  simpl. by rewrite IH.
Qed.

Lemma string_app_assoc (s1 s2 s3 : string) :
  (s1 +:+ s2) +:+ s3 = s1 +:+ s2 +:+ s3.
Proof.
  induction s1 as [|c s1 IH]; [done|].
  change (String c ((s1 +:+ s2) +:+ s3) = String c (s1 +:+ s2 +:+ s3)).
  by rewrite IH.
Qed.

Lemma string_app_empty_r (s : string) : s +:+ "" = s.
Proof.
  induction s as [|c s IH]; [done|].
  change (String c (s +:+ "") = String c s). by rewrite IH.
Qed.

Lemma repeat_char_length c n : String.length (repeat_char c n) = n.
Proof.
  induction n as [|n IH]; [done|].
  cbn [repeat_char String.length]. by rewrite IH.
Qed.

(** *** Decimal digits *)

Lemma decimal_go_grows fuel n acc :
  (String.length acc < String.length (decimal_go (S fuel) n acc))%nat.
Proof.
  revert n acc. induction fuel as [|fuel IH]; intros n acc.
  - cbn [decimal_go]. destruct (_ =? _)%nat; cbn [String.length]; lia.
  - cbn [decimal_go]. destruct (n `div` 10 =? 0)%nat; [cbn; lia|].
    etrans; [|apply IH]. cbn [String.length]. lia.
Qed.

(** A number has at most [k + 1] digits exactly if it is below
    [10 ^ (k + 1)]. *)
Lemma decimal_go_length fuel n acc k :
  (n < fuel)%nat →
  (String.length (decimal_go fuel n acc) ≤ S k + String.length acc)%nat
  ↔ (n < 10 ^ S k)%nat.
Proof.
  revert n acc k. induction fuel as [|fuel IH]; intros n acc k Hfuel; [lia|].
  cbn [decimal_go]. destruct (Nat.eqb_spec (n `div` 10) 0) as [Hdiv|Hdiv].
  - apply Nat.div_small_iff in Hdiv; [|lia]. cbn [String.length].
    assert (10 ^ 1 ≤ 10 ^ S k)%nat by (apply Nat.pow_le_mono_r; lia).
    change (10 ^ 1)%nat with 10%nat in *. split; lia.
  - assert (10 ≤ n)%nat as Hn.
    { destruct (decide (n < 10)%nat) as [Hlt|]; [|lia].
      by apply Nat.div_small in Hlt. }
    assert (n `div` 10 < fuel)%nat as Hfuel'.
    { pose proof (Nat.div_lt n 10%nat). lia. }
    destruct k as [|k].
    + change (10 ^ 1)%nat with 10%nat. destruct fuel as [|fuel']; [lia|].
      pose proof (decimal_go_grows fuel' (n `div` 10)%nat
                    (String (digit (n `mod` 10)) acc)) as Hgrow.
      cbn [String.length] in Hgrow. split; lia.
    + pose proof (IH (n `div` 10)%nat (String (digit (n `mod` 10)) acc) k Hfuel')
        as Hdigits.
      cbn [String.length] in Hdigits.
      rewrite (Nat.pow_succ_r' 10%nat (S k)).
      pose proof (Nat.div_mod_eq n 10%nat).
      pose proof (Nat.mod_upper_bound n 10%nat).
      split; intros Hgoal; [apply proj1 in Hdigits|apply proj2 in Hdigits]; lia.
Qed.

Lemma decimal_length_pos n : (1 ≤ String.length (decimal n))%nat.
Proof.
  pose proof (decimal_go_grows n n ""). unfold decimal.
  cbn [String.length] in *. lia.
Qed.

Lemma decimal_length_le n m :
  (n ≤ m)%nat → (String.length (decimal n) ≤ String.length (decimal m))%nat.
Proof.
  intros Hnm. pose proof (decimal_length_pos m) as Hpos.
  destruct (String.length (decimal m)) as [|k] eqn:Hlen; [lia|].
  pose proof (decimal_go_length (S m) m "" k) as Hm.
  pose proof (decimal_go_length (S n) n "" k) as Hn.
  unfold decimal in *. cbn [String.length] in Hm, Hn.
  rewrite Nat.add_0_r in Hm, Hn. apply Hn; [lia|].
  assert (m < 10 ^ S k)%nat by (apply Hm; lia). lia.
Qed.

Lemma zero_fill_length width ix :
  (String.length (decimal ix) ≤ width)%nat →
  String.length (zero_fill width ix) = width.
Proof.
  intros Hw. unfold zero_fill. cbv zeta.
  rewrite string_length_app, repeat_char_length. lia.
Qed.

Lemma header_length ix_length ix :
  (String.length (decimal ix) ≤ ix_length)%nat →
  String.length (BookShow.header ix_length ix) = (15 + ix_length)%nat.
Proof.
  intros Hw. unfold BookShow.header.
  rewrite !string_length_app, zero_fill_length by done. cbn. lia.
Qed.

(** *** Records *)

Lemma parts_loop_locked py_repr schema self sep names :
  locked_record schema self → names ⊆ schema →
  ∃ values,
    Forall2 (λ name v, inst_dict self !! name = Some v) names values
    ∧ EntryShow.parts_loop py_repr self sep (VStr <$> names)
      = Done (entry_parts py_repr sep names values).
Proof.
  intros Hlocked. induction names as [|name names IH]; intros Hsub.
  - exists []. by split.
  - destruct (getitem_locked_in schema self name Hlocked) as (v & Hv & Hget).
    { apply Hsub. by left. }
    destruct IH as (values & Hvalues & Hloop).
    { intros x Hx. apply Hsub. by right. }
    exists (v :: values). split; [by constructor|].
    cbn [fmap list_fmap EntryShow.parts_loop EntryShow.getitem_value].
    rewrite Hget. cbn [shown_of sbind].
    change (list_fmap _ _ VStr names) with (VStr <$> names).
    rewrite Hloop. done.
Qed.

Lemma parts_locked py_repr schema self sep :
  locked_record schema self →
  ∃ values,
    Forall2 (λ name v, inst_dict self !! name = Some v) schema values
    ∧ EntryShow.parts py_repr self sep
      = Done (entry_parts py_repr sep schema values).
Proof.
  intros Hlocked.
  destruct (parts_loop_locked py_repr schema self sep schema Hlocked)
    as (values & Hvalues & Hloop); [done|].
  exists values. split; [done|]. destruct Hlocked as (Hattrs & _ & _).
  unfold EntryShow.parts, getattr. rewrite Hattrs.
  cbn [shown_of sbind tuple_of_names py_iter]. exact Hloop.
Qed.

Lemma bound_values_unique (d : gmap string pyval) names values values' :
  Forall2 (λ name v, d !! name = Some v) names values →
  Forall2 (λ name v, d !! name = Some v) names values' →
  values = values'.
Proof.
  intros H. revert values'.
  induction H as [|name v names values Hv _ IH]; intros values' H';
    inversion H' as [|? v' ? values'' Hv' Hrest]; subst; [done|].
  f_equal; [congruence|by apply IH].
Qed.

(** X15.  A locked record whose schema has no name of the form [__x__]
    always shows: [__str__] and [__repr__] never raise on it, and both
    list the schema names in schema order, each with the value bound to it
    on the record; the bookkeeping names are not shown. *)
Theorem entry_show_locked (py_repr : pyval → string) (schema : list string)
    (self : instance) :
  ordinary_names schema →
  locked_record schema self →
  ∃ values,
    Forall2 (λ name v, inst_dict self !! name = Some v) schema values
    ∧ EntryShow.__str__ py_repr self
      = Done (String.concat newline (entry_parts py_repr ": " schema values))
    ∧ EntryShow.__repr__ py_repr self
      = Done (class_name (inst_class self) +:+ "("
              +:+ String.concat ", " (entry_parts py_repr "=" schema values)
              +:+ ")").
Proof.
  intros _ Hlocked.
  destruct (parts_locked py_repr schema self ": " Hlocked)
    as (values & Hvalues & Hstr).
  destruct (parts_locked py_repr schema self "=" Hlocked)
    as (values' & Hvalues' & Hrepr).
  rewrite (bound_values_unique _ _ _ _ Hvalues' Hvalues) in Hrepr.
  exists values. split; [done|].
  unfold EntryShow.__str__, EntryShow.__repr__. by rewrite Hstr, Hrepr.
Qed.

Lemma entry_show_locked_witness :
  ordinary_names ["name"; "phone"]
  ∧ locked_record ["name"; "phone"] ana
  ∧ ∃ values,
      Forall2 (λ name v, inst_dict ana !! name = Some v) ["name"; "phone"]
              values
      ∧ EntryShow.__str__ (λ _, "1234") ana
        = Done (String.concat newline
                  (entry_parts (λ _, "1234") ": " ["name"; "phone"] values))
      ∧ EntryShow.__repr__ (λ _, "1234") ana
        = Done (class_name (inst_class ana) +:+ "("
                +:+ String.concat ", "
                      (entry_parts (λ _, "1234") "=" ["name"; "phone"] values)
                +:+ ")").
Proof.
  assert (locked_record ["name"; "phone"] ana) as H.
  { split; [reflexivity|]. split; [by exists (VBool false)|]. reflexivity. }
  assert (ordinary_names ["name"; "phone"]) as Hord by (repeat constructor).
  split; [exact Hord|]. split; [exact H|].
  exact (entry_show_locked (λ _, "1234") ["name"; "phone"] ana Hord H).
Defined.

(** *** Collections *)

Lemma entry_parts_shown py_repr schema self :
  locked_record schema self →
  ∃ body, EntryShow.__str__ py_repr self = Done body.
Proof.
  intros Hlocked.
  destruct (parts_locked py_repr schema self ": " Hlocked)
    as (values & _ & Hstr).
  unfold EntryShow.__str__. rewrite Hstr. by eauto.
Qed.

Lemma entries_shown py_repr schema es :
  Forall (locked_record schema) es →
  ∃ bodies,
    Forall2 (λ e body, EntryShow.__str__ py_repr e = Done body) es bodies.
Proof.
  induction 1 as [|e es He _ [bodies Hbodies]]; [by exists []|].
  destruct (entry_parts_shown py_repr schema e He) as [body Hbody].
  exists (body :: bodies). by constructor.
Qed.

Lemma str_loop_layout py_repr w es bodies ix s :
  Forall2 (λ e body, EntryShow.__str__ py_repr e = Done body) es bodies →
  BookShow.str_loop py_repr w ix es s = Done (s +:+ book_layout w ix bodies).
Proof.
  intros Hbodies. revert ix s.
  induction Hbodies as [|e body es bodies He _ IH]; intros ix s.
  - cbn [BookShow.str_loop book_layout]. by rewrite string_app_empty_r.
  - cbn [BookShow.str_loop book_layout]. rewrite He. cbn [sbind].
    rewrite IH. by rewrite !string_app_assoc.
Qed.

(** X16.  [BookBase.__str__] on a collection of locked records, with a
    schema that has no name of the form [__x__], never raises.  On an
    empty collection it is the fixed notice; otherwise it is
    one block per entry, in order and numbered from 1, each made of a
    header, the entry's own [__str__] and an empty line, followed by the
    divider; and every header is exactly as wide as the divider, 15
    characters and the digits of the entry count. *)
Theorem book_str_layout (py_repr : pyval → string) (schema : list string)
    (self : book) :
  ordinary_names schema →
  Forall (locked_record schema) (entries self) →
  let n := length (entries self) in
  let w := String.length (decimal n) in
  (n = 0%nat →
   BookShow.__str__ py_repr self = Done "Your book has no entries yet")
  ∧ (n ≠ 0%nat →
     ∃ bodies,
       Forall2 (λ e body, EntryShow.__str__ py_repr e = Done body)
               (entries self) bodies
       ∧ BookShow.__str__ py_repr self
         = Done (book_layout w 1 bodies +:+ BookShow.divider w)
       ∧ ∀ ix, (1 ≤ ix ≤ n)%nat →
           String.length (BookShow.header w ix) = (15 + w)%nat
           ∧ String.length (BookShow.divider w) = (15 + w)%nat).
Proof.
  intros _ Hlocked n w. subst n w. unfold BookShow.__str__. split.
  - by destruct (entries self).
  - intros Hn.
    destruct (entries_shown py_repr schema _ Hlocked) as [bodies Hbodies].
    exists bodies. split; [done|]. split.
    + destruct (entries self) as [|e es] eqn:Hentries; [done|].
      rewrite <- Hentries in *.
      rewrite (str_loop_layout _ _ _ bodies) by done. done.
    + intros ix Hix. split.
      * apply header_length. apply decimal_length_le. lia.
      * apply repeat_char_length.
Qed.

Lemma book_str_layout_witness :
  ordinary_names ["name"; "phone"]
  ∧ Forall (locked_record ["name"; "phone"]) (entries two_entries)
  ∧ let n := length (entries two_entries) in
    let w := String.length (decimal n) in
    (n = 0%nat →
     BookShow.__str__ (λ _, "1234") two_entries
     = Done "Your book has no entries yet")
    ∧ (n ≠ 0%nat →
       ∃ bodies,
         Forall2 (λ e body, EntryShow.__str__ (λ _, "1234") e = Done body)
                 (entries two_entries) bodies
         ∧ BookShow.__str__ (λ _, "1234") two_entries
           = Done (book_layout w 1 bodies +:+ BookShow.divider w)
         ∧ ∀ ix, (1 ≤ ix ≤ n)%nat →
             String.length (BookShow.header w ix) = (15 + w)%nat
             ∧ String.length (BookShow.divider w) = (15 + w)%nat).
Proof.
  assert (Forall (locked_record ["name"; "phone"]) (entries two_entries)) as H.
  { repeat constructor; try reflexivity; by exists (VBool false). }
  assert (ordinary_names ["name"; "phone"]) as Hord by (repeat constructor).
  split; [exact Hord|]. split; [exact H|].
  exact (book_str_layout (λ _, "1234") ["name"; "phone"] two_entries Hord H).
Defined.
